(** * TaskBoard: a shallow embedding of [src/App.tsx]

    The component keeps four pieces of React state ([tasks], [newTask],
    [filter], [isFilterMenuOpen]), mirrors [tasks] to [localStorage] as
    JSON text and reads it back when it mounts.  Each handler of the
    component is a function from the state it closes over to the state
    it sets; the clock ([Date.now()], [new Date()]) and the stored item
    are explicit arguments. *)

From Stdlib Require Import Ascii String.
From Stdlib Require Import ZArith List Bool Lia.
From Stdlib Require Import DecimalString DecimalZ.
Import ListNotations.

Local Open Scope Z_scope.

(** ** JavaScript strings

    A JavaScript string is a sequence of UTF-16 code units. *)

Module JS.

Abbreviation code_unit := Z (only parsing).
Abbreviation js_string := (list Z) (only parsing).

(** ASCII literals of the source, as code units. *)
Definition lit (s : String.string) : js_string :=
  List.map (fun a => Z.of_N (N_of_ascii a)) (String.list_ascii_of_string s).

Arguments lit s%_string.

(** [a === b] on strings. *)
Fixpoint str_eqb (a b : js_string) : bool :=
  match a, b with
  | [], [] => true
  | x :: a', y :: b' => (x =? y) && str_eqb a' b'
  | _, _ => false
  end.

(** WhiteSpace and LineTerminator code points of ECMAScript, the ones
    [String.prototype.trim] strips: TAB, VT, FF, SP, NBSP, ZWNBSP, the
    Space_Separator category, LF, CR, LS and PS. *)
Definition is_white_space (c : code_unit) : bool :=
  (c =? 9) || (c =? 10) || (c =? 11) || (c =? 12) || (c =? 13)
  || (c =? 32) || (c =? 160) || (c =? 5760)
  || ((8192 <=? c) && (c <=? 8202))
  || (c =? 8232) || (c =? 8233) || (c =? 8239) || (c =? 8287)
  || (c =? 12288) || (c =? 65279).

Fixpoint trimStart (s : js_string) : js_string :=
  match s with
  | [] => []
  | c :: s' => if is_white_space c then trimStart s' else s
  end.

Definition trimEnd (s : js_string) : js_string :=
  rev (trimStart (rev s)).

Definition trim (s : js_string) : js_string :=
  trimEnd (trimStart s).

(** [Number.prototype.toString] on an integer of magnitude below 1e21
    (every clock reading is): the decimal digits, with a leading minus
    sign below zero. *)
Definition Number_toString (n : Z) : js_string :=
  lit (NilEmpty.string_of_int (Z.to_int n)).

(** Reading with failure, in the option monad.  [expect c s] is the
    rest of [s] after a first code unit [c]. *)
Definition expect (c : code_unit) (s : js_string) : option js_string :=
  match s with
  | c' :: s' => if c' =? c then Some s' else None
  | [] => None
  end.

Definition bind {A B : Type} (o : option A) (k : A -> option B) : option B :=
  match o with
  | Some a => k a
  | None => None
  end.

Notation "' p <- o ;; k" := (bind o (fun p => k))
  (at level 61, p pattern, o at next level, right associativity).
Notation "x <- o ;; k" := (bind o (fun x => k))
  (at level 61, o at next level, right associativity).

Definition guard (b : bool) : option unit :=
  if b then Some tt else None.

End JS.

Import JS.

(** ** Data model *)

(** The time value of a [Date] object: milliseconds since the epoch, or
    NaN for an invalid date. *)
Inductive Date : Type :=
| InvalidDate
| TimeValue (t : Z).

(** [interface Task]. *)
Record Task : Type := mkTask {
  id : js_string;
  text : js_string;
  completed : bool;
  createdAt : Date
}.

(** [type FilterType]; ['completed'] is [completed_] here, the name
    [completed] being the field of [Task]. *)
Inductive FilterType : Type := all | active | completed_.

(** The four [useState] cells of [App]. *)
Record State : Type := mkState {
  tasks : list Task;
  newTask : js_string;
  filter : FilterType;
  isFilterMenuOpen : bool
}.

(** The values passed to [useState] on the first render. *)
Definition initial : State :=
  {| tasks := []; newTask := []; filter := all; isFilterMenuOpen := false |}.

Definition setTasks (ts : list Task) (st : State) : State :=
  {| tasks := ts; newTask := newTask st; filter := filter st;
     isFilterMenuOpen := isFilterMenuOpen st |}.

Definition setNewTask (s : js_string) (st : State) : State :=
  {| tasks := tasks st; newTask := s; filter := filter st;
     isFilterMenuOpen := isFilterMenuOpen st |}.

Definition setFilter (f : FilterType) (st : State) : State :=
  {| tasks := tasks st; newTask := newTask st; filter := f;
     isFilterMenuOpen := isFilterMenuOpen st |}.

Definition setIsFilterMenuOpen (b : bool) (st : State) : State :=
  {| tasks := tasks st; newTask := newTask st; filter := filter st;
     isFilterMenuOpen := b |}.

(** ** Command handlers *)

(** [addTask]: [now] is what [Date.now()] returns and [created] the time
    value of [new Date()]; the text is the [newTask] cell. *)
Definition addTask (now created : Z) (st : State) : State :=
  if str_eqb (trim (newTask st)) [] then st
  else
    let newTaskObj :=
      {| id := Number_toString now;
         text := trim (newTask st);
         completed := false;
         createdAt := TimeValue created |} in
    setNewTask [] (setTasks (tasks st ++ [newTaskObj]) st).

(** The callback of [tasks.map] in [toggleTaskCompletion]. *)
Definition toggle_one (i : js_string) (task : Task) : Task :=
  if str_eqb (id task) i
  then {| id := id task; text := text task;
          completed := negb (completed task);
          createdAt := createdAt task |}
  else task.

Definition toggleTaskCompletion (i : js_string) (st : State) : State :=
  setTasks (List.map (toggle_one i) (tasks st)) st.

Definition deleteTask (i : js_string) (st : State) : State :=
  setTasks (List.filter (fun task => negb (str_eqb (id task) i)) (tasks st)) st.

(** ** View filter and derived counts *)

(** The callback of [tasks.filter] that computes [filteredTasks]. *)
Definition visible (f : FilterType) (task : Task) : bool :=
  match f with
  | active => negb (completed task)
  | completed_ => completed task
  | all => true
  end.

Definition filteredTasks (st : State) : list Task :=
  List.filter (visible (filter st)) (tasks st).

Definition totalTasks (st : State) : Z :=
  Z.of_nat (length (tasks st)).

Definition completedTasks (st : State) : Z :=
  Z.of_nat (length (List.filter (fun task => completed task) (tasks st))).

Definition activeTasks (st : State) : Z :=
  totalTasks st - completedTasks st.

(** ** Filter selector *)

(** The [onClick] handlers of the filter button, of the three menu
    entries and of the "Show all tasks" button. *)
Definition clickFilterButton (st : State) : State :=
  setIsFilterMenuOpen (negb (isFilterMenuOpen st)) st.

Definition clickMenuEntry (f : FilterType) (st : State) : State :=
  setIsFilterMenuOpen false (setFilter f st).

Definition clickShowAll (st : State) : State :=
  setFilter all st.

(** Which controls the render of a state contains. *)
Definition menu_rendered (st : State) : bool := isFilterMenuOpen st.

Definition filter_is_all (f : FilterType) : bool :=
  match f with all => true | _ => false end.

Definition showAll_rendered (st : State) : bool :=
  match filteredTasks st with
  | [] => negb (filter_is_all (filter st))
  | _ :: _ => false
  end.

(** ** User actions and reachable states *)

Inductive Action : Type :=
| Type_ (s : js_string)
| Submit (now created : Z)
| Toggle (i : js_string)
| Delete (i : js_string)
| FilterButton
| MenuEntry (f : FilterType)
| ShowAll.

(** An action is possible in a state when its control is rendered. *)
Definition enabled (a : Action) (st : State) : bool :=
  match a with
  | MenuEntry _ => menu_rendered st
  | ShowAll => showAll_rendered st
  | _ => true
  end.

Definition handle (a : Action) (st : State) : State :=
  match a with
  | Type_ s => setNewTask s st
  | Submit now created => addTask now created st
  | Toggle i => toggleTaskCompletion i st
  | Delete i => deleteTask i st
  | FilterButton => clickFilterButton st
  | MenuEntry f => clickMenuEntry f st
  | ShowAll => clickShowAll st
  end.

Definition step (st : State) (a : Action) : State :=
  if enabled a st then handle a st else st.

Definition run (st : State) (l : list Action) : State :=
  fold_left step l st.

(** States of a session that starts with an empty store. *)
Definition reachable (st : State) : Prop :=
  exists l, st = run initial l.

Definition ids (ts : list Task) : list js_string := List.map id ts.

(** ** Dates: time values and their ISO form

    The abstract operations of ECMAScript on time values (section
    "Date Objects" of the language specification), over [Z]. *)

Module DateTime.

Definition msPerDay : Z := 86400000.
Definition msPerHour : Z := 3600000.
Definition msPerMinute : Z := 60000.
Definition msPerSecond : Z := 1000.

Definition Day (t : Z) : Z := t / msPerDay.
Definition TimeWithinDay (t : Z) : Z := t mod msPerDay.

Definition DaysInYear (y : Z) : Z :=
  if negb (y mod 4 =? 0) then 365
  else if negb (y mod 100 =? 0) then 366
  else if negb (y mod 400 =? 0) then 365
  else 366.

Definition DayFromYear (y : Z) : Z :=
  365 * (y - 1970) + (y - 1969) / 4 - (y - 1901) / 100 + (y - 1601) / 400.

Definition TimeFromYear (y : Z) : Z := msPerDay * DayFromYear y.

(** The largest [y] with [TimeFromYear y <= t]: an estimate from the
    mean length of a year, corrected by one year either way. *)
Definition YearFromTime (t : Z) : Z :=
  let y := 1970 + (400 * Day t) / 146097 in
  if DayFromYear (y + 1) <=? Day t then y + 1
  else if DayFromYear y <=? Day t then y
  else y - 1.

Definition InLeapYear (t : Z) : Z :=
  if DaysInYear (YearFromTime t) =? 365 then 0 else 1.

Definition DayWithinYear (t : Z) : Z :=
  Day t - DayFromYear (YearFromTime t).

(** The day of the year on which month [m] (0 to 11) starts, and the day
    after the last day of December for [m = 12]. *)
Definition month_start (leap m : Z) : Z :=
  match m with
  | 0 => 0
  | 1 => 31
  | 2 => 59 + leap
  | 3 => 90 + leap
  | 4 => 120 + leap
  | 5 => 151 + leap
  | 6 => 181 + leap
  | 7 => 212 + leap
  | 8 => 243 + leap
  | 9 => 273 + leap
  | 10 => 304 + leap
  | 11 => 334 + leap
  | _ => 365 + leap
  end.

Definition MonthFromTime (t : Z) : Z :=
  let d := DayWithinYear t in
  let l := InLeapYear t in
  if d <? 31 then 0
  else if d <? 59 + l then 1
  else if d <? 90 + l then 2
  else if d <? 120 + l then 3
  else if d <? 151 + l then 4
  else if d <? 181 + l then 5
  else if d <? 212 + l then 6
  else if d <? 243 + l then 7
  else if d <? 273 + l then 8
  else if d <? 304 + l then 9
  else if d <? 334 + l then 10
  else 11.

Definition DateFromTime (t : Z) : Z :=
  DayWithinYear t - month_start (InLeapYear t) (MonthFromTime t) + 1.

Definition HourFromTime (t : Z) : Z := (t / msPerHour) mod 24.
Definition MinFromTime (t : Z) : Z := (t / msPerMinute) mod 60.
Definition SecFromTime (t : Z) : Z := (t / msPerSecond) mod 60.
Definition msFromTime (t : Z) : Z := t mod msPerSecond.

Definition MakeTime (hour min sec ms : Z) : Z :=
  hour * msPerHour + min * msPerMinute + sec * msPerSecond + ms.

(** [MakeDay] on a month in 0..11: the day number of the first of the
    month plus [date - 1]. *)
Definition MakeDay (year month date : Z) : Z :=
  let leap := if DaysInYear year =? 365 then 0 else 1 in
  DayFromYear year + month_start leap month + date - 1.

Definition MakeDate (day time : Z) : Z := day * msPerDay + time.

Definition maxTime : Z := 8640000000000000.

Definition TimeClip (time : Z) : Date :=
  if Z.abs time <=? maxTime then TimeValue time else InvalidDate.

(** A [Date] object holds NaN or a time value within [maxTime]. *)
Definition valid_time (t : Z) : Prop := - maxTime <= t <= maxTime.

(** *** Printing *)

Definition digit (k : Z) : code_unit := 48 + k.

(** [n] in decimal on exactly [w] digits, zero padded. *)
Fixpoint pad (w : nat) (n : Z) : js_string :=
  match w with
  | O => []
  | S w' => pad w' (n / 10) ++ [digit (n mod 10)]
  end.

Definition year_string (y : Z) : js_string :=
  if (0 <=? y) && (y <=? 9999) then pad 4 y
  else if y <? 0 then lit "-" ++ pad 6 (- y)
  else lit "+" ++ pad 6 y.

(** [Date.prototype.toISOString] on a finite time value. *)
Definition toISOString (t : Z) : js_string :=
  year_string (YearFromTime t) ++ lit "-" ++ pad 2 (MonthFromTime t + 1)
  ++ lit "-" ++ pad 2 (DateFromTime t)
  ++ lit "T" ++ pad 2 (HourFromTime t)
  ++ lit ":" ++ pad 2 (MinFromTime t)
  ++ lit ":" ++ pad 2 (SecFromTime t)
  ++ lit "." ++ pad 3 (msFromTime t) ++ lit "Z".

(** *** Parsing *)

Definition is_digit (c : code_unit) : bool := (48 <=? c) && (c <=? 57).

(** Exactly [w] decimal digits. *)
Fixpoint read_digits (w : nat) (acc : Z) (s : js_string)
  : option (Z * js_string) :=
  match w with
  | O => Some (acc, s)
  | S w' =>
      match s with
      | c :: s' =>
          if is_digit c then read_digits w' (10 * acc + (c - 48)) s'
          else None
      | [] => None
      end
  end.

(** The year of the Date Time String Format: four digits, or a sign and
    six digits (the expanded form); [-000000] is not a year. *)
Definition read_year (s : js_string) : option (Z * js_string) :=
  match s with
  | c :: s' =>
      if c =? 43 then read_digits 6 0 s'
      else if c =? 45 then
        ' (y, r) <- read_digits 6 0 s' ;;
        _ <- guard (negb (y =? 0)) ;;
        Some (- y, r)
      else read_digits 4 0 s
  | [] => None
  end.

Definition DaysInMonth (year month : Z) : Z :=
  let leap := if DaysInYear year =? 365 then 0 else 1 in
  month_start leap month - month_start leap (month - 1).

(** The complete UTC form [YYYY-MM-DDTHH:mm:ss.sssZ] of the Date Time
    String Format, with every field in its legal range. *)
Definition parse_iso_utc (s : js_string) : option Z :=
  ' (y, s) <- read_year s ;;
  s <- expect 45 s ;;
  ' (mo, s) <- read_digits 2 0 s ;;
  s <- expect 45 s ;;
  ' (d, s) <- read_digits 2 0 s ;;
  s <- expect 84 s ;;
  ' (h, s) <- read_digits 2 0 s ;;
  s <- expect 58 s ;;
  ' (mi, s) <- read_digits 2 0 s ;;
  s <- expect 58 s ;;
  ' (se, s) <- read_digits 2 0 s ;;
  s <- expect 46 s ;;
  ' (ms, s) <- read_digits 3 0 s ;;
  s <- expect 90 s ;;
  _ <- guard (match s with [] => true | _ => false end) ;;
  _ <- guard ((1 <=? mo) && (mo <=? 12)) ;;
  _ <- guard ((1 <=? d) && (d <=? DaysInMonth y mo)) ;;
  _ <- guard ((h <=? 23) && (mi <=? 59) && (se <=? 59)) ;;
  Some (MakeDate (MakeDay y (mo - 1) d) (MakeTime h mi se ms)).

End DateTime.

Import DateTime.

(** ** JSON text

    What [JSON.stringify] writes for a [Task[]] and what [JSON.parse]
    reads, on code units. *)

Module JSON.

#[warnings="-register-all"] Inductive json : Type :=
| JNull
| JBool (b : bool)
| JNum (literal : js_string)
| JStr (s : js_string)
| JArr (elements : list json)
| JObj (members : list (js_string * json)).

(** *** Writing *)

Definition hex_digit (k : Z) : code_unit :=
  if k <? 10 then 48 + k else 87 + k.

(** [UnicodeEscape]: a backslash, [u] and four lower-case hex digits. *)
Definition unicode_escape (c : code_unit) : js_string :=
  [92; 117; hex_digit ((c / 4096) mod 16); hex_digit ((c / 256) mod 16);
   hex_digit ((c / 16) mod 16); hex_digit (c mod 16)].

Definition is_high_surrogate (c : code_unit) : bool :=
  (55296 <=? c) && (c <=? 56319).
Definition is_low_surrogate (c : code_unit) : bool :=
  (56320 <=? c) && (c <=? 57343).
Definition is_surrogate (c : code_unit) : bool :=
  (55296 <=? c) && (c <=? 57343).

(** One code point that is not a surrogate pair. *)
Definition quote_unit (c : code_unit) : js_string :=
  if c =? 8 then [92; 98]
  else if c =? 9 then [92; 116]
  else if c =? 10 then [92; 110]
  else if c =? 12 then [92; 102]
  else if c =? 13 then [92; 114]
  else if c =? 34 then [92; 34]
  else if c =? 92 then [92; 92]
  else if (c <? 32) || is_surrogate c then unicode_escape c
  else [c].

(** The body of [QuoteJSONString]: the string is read by code points, a
    surrogate pair is copied and a lone surrogate escaped. *)
Fixpoint quote_body (s : js_string) : js_string :=
  match s with
  | [] => []
  | c :: s' =>
      if is_high_surrogate c then
        match s' with
        | d :: s'' =>
            if is_low_surrogate d then c :: d :: quote_body s''
            else unicode_escape c ++ quote_body s'
        | [] => unicode_escape c
        end
      else quote_unit c ++ quote_body s'
  end.

Definition QuoteJSONString (s : js_string) : js_string :=
  34 :: quote_body s ++ [34].

(** [Date.prototype.toJSON]: [null] for an invalid date, else the ISO
    string. *)
Definition stringify_Date (d : Date) : js_string :=
  match d with
  | InvalidDate => lit "null"
  | TimeValue t => QuoteJSONString (toISOString t)
  end.

Definition stringify_bool (b : bool) : js_string :=
  if b then lit "true" else lit "false".

(** The properties of a task in creation order. *)
Definition stringify_Task (task : Task) : js_string :=
  lit "{" ++ QuoteJSONString (lit "id") ++ lit ":"
  ++ QuoteJSONString (id task)
  ++ lit "," ++ QuoteJSONString (lit "text") ++ lit ":"
  ++ QuoteJSONString (text task)
  ++ lit "," ++ QuoteJSONString (lit "completed") ++ lit ":"
  ++ stringify_bool (completed task)
  ++ lit "," ++ QuoteJSONString (lit "createdAt") ++ lit ":"
  ++ stringify_Date (createdAt task) ++ lit "}".

Fixpoint join_comma (l : list js_string) : js_string :=
  match l with
  | [] => []
  | x :: l' =>
      match l' with
      | [] => x
      | _ :: _ => x ++ lit "," ++ join_comma l'
      end
  end.

(** [JSON.stringify(tasks)]. *)
Definition stringify (ts : list Task) : js_string :=
  lit "[" ++ join_comma (List.map stringify_Task ts) ++ lit "]".

(** *** Reading *)

Inductive outcome (A : Type) : Type :=
| Ok (a : A)
| SyntaxError
| OutOfFuel.

Arguments Ok {A} a.
Arguments SyntaxError {A}.
Arguments OutOfFuel {A}.

Definition of_option {A : Type} (o : option A) : outcome A :=
  match o with
  | Some a => Ok a
  | None => SyntaxError
  end.

Definition map_outcome {A B : Type} (f : A -> B) (o : outcome A) : outcome B :=
  match o with
  | Ok a => Ok (f a)
  | SyntaxError => SyntaxError
  | OutOfFuel => OutOfFuel
  end.

Definition is_json_ws (c : code_unit) : bool :=
  (c =? 9) || (c =? 10) || (c =? 13) || (c =? 32).

Fixpoint skip_ws (s : js_string) : js_string :=
  match s with
  | [] => []
  | c :: s' => if is_json_ws c then skip_ws s' else s
  end.

Definition hex_value (c : code_unit) : option Z :=
  if (48 <=? c) && (c <=? 57) then Some (c - 48)
  else if (97 <=? c) && (c <=? 102) then Some (c - 87)
  else if (65 <=? c) && (c <=? 70) then Some (c - 55)
  else None.

(** The code unit a one-letter escape stands for. *)
Definition simple_escape (e : code_unit) : option code_unit :=
  if e =? 34 then Some 34
  else if e =? 92 then Some 92
  else if e =? 47 then Some 47
  else if e =? 98 then Some 8
  else if e =? 102 then Some 12
  else if e =? 110 then Some 10
  else if e =? 114 then Some 13
  else if e =? 116 then Some 9
  else None.

(** The four hex digits of a [\u] escape. *)
Definition hex4 (h1 h2 h3 h4 : code_unit) : option code_unit :=
  a <- hex_value h1 ;;
  b <- hex_value h2 ;;
  c <- hex_value h3 ;;
  d <- hex_value h4 ;;
  Some (4096 * a + 256 * b + 16 * c + d).

Definition cons_fst {A B : Type} (a : A) (p : list A * B) : list A * B :=
  (a :: fst p, snd p).

(** A string after its opening quote, up to the closing one. *)
Fixpoint parse_string_body (s : js_string) : option (js_string * js_string) :=
  match s with
  | [] => None
  | c :: s' =>
      if c =? 34 then Some ([], s')
      else if c =? 92 then
        match s' with
        | [] => None
        | e :: s'' =>
            if e =? 117 then
              match s'' with
              | h1 :: h2 :: h3 :: h4 :: s3 =>
                  u <- hex4 h1 h2 h3 h4 ;;
                  p <- parse_string_body s3 ;;
                  Some (cons_fst u p)
              | _ => None
              end
            else
              u <- simple_escape e ;;
              p <- parse_string_body s'' ;;
              Some (cons_fst u p)
        end
      else if c <? 32 then None
      else
        p <- parse_string_body s' ;;
        Some (cons_fst c p)
  end.

Fixpoint take_digits (s : js_string) : js_string * js_string :=
  match s with
  | [] => ([], [])
  | c :: s' =>
      if is_digit c then cons_fst c (take_digits s')
      else ([], s)
  end.

(** At least one digit. *)
Definition digits1 (s : js_string) : option (js_string * js_string) :=
  match take_digits s with
  | ([], _) => None
  | (ds, r) => Some (ds, r)
  end.

(** An optional sign among [signs]. *)
Definition opt_sign (plus : bool) (s : js_string) : js_string * js_string :=
  match s with
  | c :: r =>
      if (c =? 45) || (plus && (c =? 43)) then ([c], r) else ([], s)
  | [] => ([], s)
  end.

(** The exponent part of a number, after the literal read so far. *)
Definition number_exp (l : js_string) (s : js_string)
  : option (json * js_string) :=
  match s with
  | c :: r =>
      if (c =? 101) || (c =? 69) then
        let (sg, r1) := opt_sign true r in
        ' (ds, r2) <- digits1 r1 ;;
        Some (JNum (l ++ c :: sg ++ ds), r2)
      else Some (JNum l, s)
  | [] => Some (JNum l, s)
  end.

Definition number_frac (l : js_string) (s : js_string)
  : option (json * js_string) :=
  match s with
  | c :: r =>
      if c =? 46 then
        ' (ds, r') <- digits1 r ;;
        number_exp (l ++ c :: ds) r'
      else number_exp l s
  | [] => number_exp l s
  end.

(** A number keeps its literal: the component never computes with one. *)
Definition parse_number (s : js_string) : option (json * js_string) :=
  let (sg, s1) := opt_sign false s in
  match s1 with
  | c :: r =>
      if c =? 48 then number_frac (sg ++ [c]) r
      else if is_digit c then
        let (ds, r') := take_digits r in number_frac (sg ++ c :: ds) r'
      else None
  | [] => None
  end.

(** The rest of [s] after the code units of [p]. *)
Fixpoint strip_prefix (p s : js_string) : option js_string :=
  match p with
  | [] => Some s
  | c :: p' => s' <- expect c s ;; strip_prefix p' s'
  end.

Definition keyword (p : js_string) (v : json) (s : js_string)
  : outcome (json * js_string) :=
  of_option (r <- strip_prefix p s ;; Some (v, r)).

(** Recursive descent on values, on the elements of an array after its
    bracket and on the members of an object after its brace. *)
Fixpoint parse_value (fuel : nat) (s : js_string) {struct fuel}
  : outcome (json * js_string) :=
  match fuel with
  | O => OutOfFuel
  | S f =>
      match skip_ws s with
      | [] => SyntaxError
      | c :: r =>
          if c =? 34 then
            of_option (p <- parse_string_body r ;; Some (JStr (fst p), snd p))
          else if c =? 91 then
            match expect 93 (skip_ws r) with
            | Some r' => Ok (JArr [], r')
            | None =>
                map_outcome (fun p => (JArr (fst p), snd p))
                            (parse_elements f r)
            end
          else if c =? 123 then
            match expect 125 (skip_ws r) with
            | Some r' => Ok (JObj [], r')
            | None =>
                map_outcome (fun p => (JObj (fst p), snd p))
                            (parse_members f r)
            end
          else if c =? 110 then keyword (lit "ull") JNull r
          else if c =? 116 then keyword (lit "rue") (JBool true) r
          else if c =? 102 then keyword (lit "alse") (JBool false) r
          else of_option (parse_number (c :: r))
      end
  end

with parse_elements (fuel : nat) (s : js_string) {struct fuel}
  : outcome (list json * js_string) :=
  match fuel with
  | O => OutOfFuel
  | S f =>
      match parse_value f s with
      | Ok (v, r) =>
          match skip_ws r with
          | [] => SyntaxError
          | c :: r' =>
              if c =? 44 then map_outcome (cons_fst v) (parse_elements f r')
              else if c =? 93 then Ok ([v], r')
              else SyntaxError
          end
      | SyntaxError => SyntaxError
      | OutOfFuel => OutOfFuel
      end
  end

with parse_members (fuel : nat) (s : js_string) {struct fuel}
  : outcome (list (js_string * json) * js_string) :=
  match fuel with
  | O => OutOfFuel
  | S f =>
      match expect 34 (skip_ws s) with
      | None => SyntaxError
      | Some r =>
          match parse_string_body r with
          | None => SyntaxError
          | Some (k, r1) =>
              match expect 58 (skip_ws r1) with
              | None => SyntaxError
              | Some r2 =>
                  match parse_value f r2 with
                  | Ok (v, r3) =>
                      match skip_ws r3 with
                      | [] => SyntaxError
                      | c :: r4 =>
                          if c =? 44 then
                            map_outcome (cons_fst (k, v)) (parse_members f r4)
                          else if c =? 125 then Ok ([(k, v)], r4)
                          else SyntaxError
                      end
                  | SyntaxError => SyntaxError
                  | OutOfFuel => OutOfFuel
                  end
              end
          end
      end
  end.

(** The whole text is one value between optional white space. *)
Definition parse_text (fuel : nat) (s : js_string) : outcome json :=
  match parse_value fuel s with
  | Ok (v, r) =>
      match skip_ws r with
      | [] => Ok v
      | _ :: _ => SyntaxError
      end
  | SyntaxError => SyntaxError
  | OutOfFuel => OutOfFuel
  end.

(** Two units of fuel per code unit, which is always enough. *)
Definition fuel_for (s : js_string) : nat := (2 * length s + 2)%nat.

(** [JSON.parse(s)]: [None] when it throws a SyntaxError. *)
Definition parse (s : js_string) : option json :=
  match parse_text (fuel_for s) s with
  | Ok v => Some v
  | _ => None
  end.

(** Property lookup on a parsed object: the last member with the key. *)
Fixpoint get (k : js_string) (ms : list (js_string * json)) : option json :=
  match ms with
  | [] => None
  | (k', v) :: ms' =>
      match get k ms' with
      | Some v' => Some v'
      | None => if str_eqb k' k then Some v else None
      end
  end.

End JSON.

Import JSON.

(** ** Persistence: the two effects of [App] *)

(** What the engine decides and the language leaves open or this model
    does not spell out: [Date.parse] on a string that is not in the
    complete UTC form above, and [new Date(v)] on a parsed number, array
    or object ([None] when the conversion throws). *)
Record Engine : Type := mkEngine {
  Date_parse_other : js_string -> Date;
  Date_of_other : json -> option Date
}.

Definition Date_parse (E : Engine) (s : js_string) : Date :=
  match parse_iso_utc s with
  | Some t => TimeClip t
  | None => Date_parse_other E s
  end.

(** [new Date(v)] on a parsed value or on [undefined]; [None] when it
    throws. *)
Definition new_Date (E : Engine) (v : option json) : option Date :=
  match v with
  | None => Some InvalidDate
  | Some JNull => Some (TimeValue 0)
  | Some (JBool b) => Some (TimeValue (if b then 1 else 0))
  | Some (JStr s) => Some (Date_parse E s)
  | Some other => Date_of_other E other
  end.

(** What the callback of [parsedTasks.map] returns for one element. *)
Inductive revived : Type :=
| Threw
| NotATask
| ATask (task : Task).

(** [task.createdAt] on an element: [null] has no properties, an object
    has its members, any other value has no such property. *)
Definition get_createdAt (e : json) : option (option json) :=
  match e with
  | JNull => None
  | JObj ms => Some (get (lit "createdAt") ms)
  | _ => Some None
  end.

(** [{...task, createdAt: new Date(task.createdAt)}], read as a [Task]
    (its four declared fields) when [id], [text] and [completed] have
    the declared types. *)
Definition revive (E : Engine) (e : json) : revived :=
  match get_createdAt e with
  | None => Threw
  | Some c =>
      match new_Date E c with
      | None => Threw
      | Some d =>
          match e with
          | JObj ms =>
              match get (lit "id") ms, get (lit "text") ms,
                    get (lit "completed") ms with
              | Some (JStr i), Some (JStr t), Some (JBool b) =>
                  ATask {| id := i; text := t; completed := b;
                           createdAt := d |}
              | _, _, _ => NotATask
              end
          | _ => NotATask
          end
      end
  end.

(** What the load effect does to the [tasks] cell: nothing, [setTasks]
    with tasks, or [setTasks] with an array that holds a value that is
    not a [Task] (the effect trusts the shape of what it parsed). *)
Inductive loaded : Type :=
| Kept
| SetTasks (ts : list Task)
| SetUntyped.

(** [parsedTasks.map(...)] followed by [setTasks]: an element that
    throws aborts the whole map. *)
Fixpoint revive_all (E : Engine) (l : list json) : option loaded :=
  match l with
  | [] => Some (SetTasks [])
  | e :: l' =>
      match revive E e with
      | Threw => None
      | NotATask =>
          match revive_all E l' with
          | None => None
          | Some _ => Some SetUntyped
          end
      | ATask task =>
          match revive_all E l' with
          | None => None
          | Some (SetTasks ts) => Some (SetTasks (task :: ts))
          | Some _ => Some SetUntyped
          end
      end
  end.

(** The errors the [try] block can raise: [JSON.parse] on its text, and
    the map on a value that is not an array or on an element it cannot
    convert. *)
Inductive error : Type := ASyntaxError | ATypeError.

(** One call of [console.error]: the message and the error caught. *)
Definition log_entry : Type := js_string * error.

Definition parse_error (e : error) : log_entry :=
  (lit "Error parsing tasks from localStorage:", e).

(** The outcome of the load effect. *)
Record mounted : Type := mkMounted {
  result : loaded;
  console : list log_entry
}.

(** The first effect, on what [localStorage.getItem('tasks')] returns
    ([None] for [null]). *)
Definition load (E : Engine) (savedTasks : option js_string) : mounted :=
  match savedTasks with
  | None => mkMounted Kept []
  | Some [] => mkMounted Kept []
  | Some s =>
      match JSON.parse s with
      | None => mkMounted Kept [parse_error ASyntaxError]
      | Some (JArr l) =>
          match revive_all E l with
          | None => mkMounted Kept [parse_error ATypeError]
          | Some r => mkMounted r []
          end
      | Some _ => mkMounted Kept [parse_error ATypeError]
      end
  end.

(** The [tasks] cell after the load effect, when it holds tasks. *)
Definition tasks_after (m : mounted) : option (list Task) :=
  match result m with
  | Kept => Some (tasks initial)
  | SetTasks ts => Some ts
  | SetUntyped => None
  end.

(** The second effect: what [localStorage.setItem('tasks', ...)] stores. *)
Definition save (st : State) : js_string := JSON.stringify (tasks st).

(** A date that holds a time value, within the range of [Date] objects. *)
Definition valid_Date (d : Date) : Prop :=
  match d with
  | InvalidDate => False
  | TimeValue t => valid_time t
  end.

(** ** Vocabulary of the statements *)

(** [l1] is [l2] with some elements left out, the others in place. *)
Inductive subseq {A : Type} : list A -> list A -> Prop :=
| subseq_nil : subseq [] []
| subseq_skip (x : A) (l1 l2 : list A) : subseq l1 l2 -> subseq l1 (x :: l2)
| subseq_keep (x : A) (l1 l2 : list A) :
    subseq l1 l2 -> subseq (x :: l1) (x :: l2).

(** A task with its completion flag negated and nothing else changed. *)
Definition flipped (task : Task) : Task :=
  {| id := id task; text := text task;
     completed := negb (completed task); createdAt := createdAt task |}.

(** The clock readings [Date.now()] returned along a list of actions. *)
Fixpoint clock_readings (l : list Action) : list Z :=
  match l with
  | [] => []
  | Submit now _ :: l' => now :: clock_readings l'
  | _ :: l' => clock_readings l'
  end.

(** The filter mode an action selects, if it selects one. *)
Definition selects (a : Action) : option FilterType :=
  match a with
  | MenuEntry f => Some f
  | ShowAll => Some all
  | _ => None
  end.

(** The actions of the filter selector. *)
Definition selector_action (a : Action) : bool :=
  match a with
  | FilterButton | MenuEntry _ | ShowAll => true
  | _ => false
  end.

(** A stored text is neither empty nor made of white space only. *)
Definition text_not_blank (task : Task) : Prop :=
  text task <> [] /\ forallb is_white_space (text task) = false.

(** Every element is a 16-bit code unit. *)
Definition code_units (s : js_string) : Prop :=
  Forall (fun c => 0 <= c < 65536) s.

(** The value [JSON.parse] builds for what [toJSON] wrote for a date. *)
Definition Date_json (d : Date) : json :=
  match d with
  | InvalidDate => JNull
  | TimeValue t => JStr (toISOString t)
  end.

(** The object [JSON.parse] builds for a stored task. *)
Definition Task_json (task : Task) : json :=
  JObj [(lit "id", JStr (id task)); (lit "text", JStr (text task));
        (lit "completed", JBool (completed task));
        (lit "createdAt", Date_json (createdAt task))].

(** A task [JSON.stringify] can write and [load] can read back: its
    strings are code units and its timestamp is a valid date. *)
Definition storable (task : Task) : Prop :=
  code_units (id task) /\ code_units (text task)
  /\ valid_Date (createdAt task).

(** The state after the first render and the load effect, when the
    [tasks] cell holds tasks. *)
Definition mount (E : Engine) (savedTasks : option js_string) : option State :=
  match tasks_after (load E savedTasks) with
  | Some ts => Some (setTasks ts initial)
  | None => None
  end.

(** What the browser can hand to the component: typed text is a string
    of code units and [new Date()] holds a valid time value. *)
Definition well_typed (a : Action) : Prop :=
  match a with
  | Type_ s => code_units s
  | Submit _ created => valid_time created
  | _ => True
  end.

(** ** The browser around the component

    The item ['tasks'] of [localStorage], the calls of [setItem] in
    order and what [console.error] received.  The save effect has
    [[tasks]] as its dependencies: it runs after the first render and
    after every render in which the [tasks] cell holds another array,
    which is after every call of [setTasks] (each handler passes a
    fresh array). *)
Record Browser : Type := mkBrowser {
  ui : State;
  localStorage : option js_string;
  setItem_calls : list js_string;
  errors : list log_entry
}.

(** The first render and its two effects, in the order they are
    declared: the load effect reads the item and may call [setTasks];
    the save effect, which closes over the empty list of the first
    render, writes it; the render that [setTasks] causes runs the save
    effect again (each effect runs once per render, as outside
    development double rendering).  [None] when [setTasks] received
    values that are not tasks. *)
Definition boot (E : Engine) (stored : option js_string) : option Browser :=
  let m := load E stored in
  match result m with
  | Kept =>
      Some {| ui := initial;
              localStorage := Some (save initial);
              setItem_calls := [save initial];
              errors := console m |}
  | SetTasks ts =>
      Some {| ui := setTasks ts initial;
              localStorage := Some (save (setTasks ts initial));
              setItem_calls := [save initial; save (setTasks ts initial)];
              errors := console m |}
  | SetUntyped => None
  end.

(** Whether the handler of an action calls [setTasks]. *)
Definition calls_setTasks (a : Action) (st : State) : bool :=
  match a with
  | Submit _ _ => negb (str_eqb (trim (newTask st)) [])
  | Toggle _ | Delete _ => true
  | _ => false
  end.

(** One user action in the browser: the handler, then the save effect
    when the [tasks] cell was set. *)
Definition act (w : Browser) (a : Action) : Browser :=
  let st' := step (ui w) a in
  if calls_setTasks a (ui w) then
    {| ui := st';
       localStorage := Some (save st');
       setItem_calls := setItem_calls w ++ [save st'];
       errors := errors w |}
  else
    {| ui := st';
       localStorage := localStorage w;
       setItem_calls := setItem_calls w;
       errors := errors w |}.

Definition session (w : Browser) (l : list Action) : Browser :=
  fold_left act l w.

(** The ids the rendered rows pass to [toggleTaskCompletion] and
    [deleteTask]: one row per task of [filteredTasks]. *)
Definition row_ids (st : State) : list js_string := ids (filteredTasks st).

(** A [Date] object: invalid, or a time value in range. *)
Definition Date_object (d : Date) : Prop :=
  match d with
  | InvalidDate => True
  | TimeValue t => valid_time t
  end.

(** A task as it comes back from the stored text: an invalid date has
    become the epoch. *)
Definition reloaded (task : Task) : Task :=
  {| id := id task; text := text task; completed := completed task;
     createdAt := match createdAt task with
                  | InvalidDate => TimeValue 0
                  | TimeValue t => TimeValue t
                  end |}.


(** The members [load] reads of a stored object. *)
Definition stored_as (E : Engine) (e : json) (task : Task) : Prop :=
  exists ms,
    e = JObj ms
    /\ get (lit "id") ms = Some (JStr (id task))
    /\ get (lit "text") ms = Some (JStr (text task))
    /\ get (lit "completed") ms = Some (JBool (completed task))
    /\ new_Date E (get (lit "createdAt") ms) = Some (createdAt task).


(** A text written with ['] for the double quote of JSON. *)
Definition json_text (s : string) : js_string :=
  List.map (fun c => if c =? 39 then 34 else c) (lit s).

Arguments json_text s%_string.

(** * Properties *)

(** ** Strings *)

Lemma str_eqb_eq (a b : js_string) : str_eqb a b = true <-> a = b.
Proof.
  revert b; induction a as [|x a IH]; intros [|y b]; simpl;
    try (split; [discriminate | discriminate]); try tauto.
  rewrite andb_true_iff, Z.eqb_eq, IH.
  split; [intros [-> ->]; reflexivity | intros [= -> ->]; auto].
Qed.

Lemma str_eqb_refl (a : js_string) : str_eqb a a = true.
Proof. apply str_eqb_eq; reflexivity. Qed.

Lemma str_eqb_neq (a b : js_string) : str_eqb a b = false <-> a <> b.
Proof.
  rewrite <- str_eqb_eq. destruct (str_eqb a b); split; congruence.
Qed.

Lemma str_eqb_nil (a : js_string) : str_eqb a [] = true <-> a = [].
Proof. apply str_eqb_eq. Qed.

Lemma trimStart_all_ws (s : js_string) :
  trimStart s = [] <-> forallb is_white_space s = true.
Proof.
  induction s as [|c s IH]; simpl; [tauto|].
  destruct (is_white_space c); simpl; [exact IH|].
  split; discriminate.
Qed.

Lemma trimStart_head (s : js_string) (c : code_unit) (r : js_string) :
  trimStart s = c :: r -> is_white_space c = false.
Proof.
  induction s as [|x s IH]; simpl; [discriminate|].
  destruct (is_white_space x) eqn:Hx; [exact IH|].
  intros [= -> _]; exact Hx.
Qed.

Lemma trimStart_idem (s : js_string) : trimStart (trimStart s) = trimStart s.
Proof.
  induction s as [|c s IH]; simpl; [reflexivity|].
  destruct (is_white_space c) eqn:Hc; [exact IH|].
  simpl; rewrite Hc; reflexivity.
Qed.

Lemma trimStart_snoc (s : js_string) (c : code_unit) :
  is_white_space c = false -> trimStart (s ++ [c]) = trimStart s ++ [c].
Proof.
  intros Hc; induction s as [|x s IH]; simpl.
  - rewrite Hc; reflexivity.
  - destruct (is_white_space x); [exact IH | reflexivity].
Qed.

Lemma trimEnd_cons (c : code_unit) (s : js_string) :
  is_white_space c = false -> trimEnd (c :: s) = c :: trimEnd s.
Proof.
  intros Hc; unfold trimEnd; simpl.
  rewrite trimStart_snoc by exact Hc.
  rewrite rev_app_distr; reflexivity.
Qed.

Lemma trimEnd_idem (s : js_string) : trimEnd (trimEnd s) = trimEnd s.
Proof.
  unfold trimEnd; rewrite rev_involutive, trimStart_idem; reflexivity.
Qed.

Lemma forallb_rev {A : Type} (f : A -> bool) (l : list A) :
  forallb f (rev l) = forallb f l.
Proof.
  induction l as [|a l IH]; simpl; [reflexivity|].
  rewrite forallb_app, IH; simpl. rewrite andb_true_r, andb_comm; reflexivity.
Qed.

Lemma trimEnd_all_ws (s : js_string) :
  trimEnd s = [] <-> forallb is_white_space s = true.
Proof.
  unfold trimEnd. rewrite <- (forallb_rev _ s), <- trimStart_all_ws.
  split; intros H.
  - apply (f_equal (@rev _)) in H; rewrite rev_involutive in H; exact H.
  - rewrite H; reflexivity.
Qed.

(** Trimming a trimmed string changes nothing. *)
Lemma trim_idem (s : js_string) : trim (trim s) = trim s.
Proof.
  unfold trim. destruct (trimStart s) as [|c r] eqn:Hs; [reflexivity|].
  pose proof (trimStart_head _ _ _ Hs) as Hc.
  rewrite trimEnd_cons by exact Hc. simpl; rewrite Hc.
  rewrite trimEnd_cons by exact Hc. rewrite trimEnd_idem; reflexivity.
Qed.

(** The test of [addTask] fails exactly on the strings made of white
    space only, the empty one among them. *)
Lemma trim_nil_iff (s : js_string) :
  trim s = [] <-> forallb is_white_space s = true.
Proof.
  unfold trim; split.
  - intros H. destruct (trimStart s) as [|c r] eqn:Hs.
    + apply trimStart_all_ws; exact Hs.
    + rewrite trimEnd_cons in H by (eapply trimStart_head; exact Hs).
      discriminate.
  - intros H. apply trimStart_all_ws in H; rewrite H; reflexivity.
Qed.

Lemma lit_inj (a b : string) : lit a = lit b -> a = b.
Proof.
  unfold lit; intros H.
  rewrite <- (string_of_list_ascii_of_string a),
          <- (string_of_list_ascii_of_string b).
  f_equal.
  revert H. generalize (list_ascii_of_string a) (list_ascii_of_string b).
  induction l as [|x l IH]; intros [|y l']; simpl; try discriminate; auto.
  intros [= Hxy Hl]. f_equal; [|apply IH; exact Hl].
  apply N2Z.inj in Hxy.
  rewrite <- (ascii_N_embedding x), <- (ascii_N_embedding y), Hxy; reflexivity.
Qed.

(** Two clock readings print alike only when they are equal. *)
Lemma Number_toString_inj (m n : Z) :
  Number_toString m = Number_toString n -> m = n.
Proof.
  unfold Number_toString; intros H.
  apply lit_inj in H.
  apply DecimalZ.to_int_inj.
  pose proof (NilEmpty.isi (Z.to_int m)) as Hm.
  rewrite H, NilEmpty.isi in Hm. congruence.
Qed.

(** ** The task store *)

Lemma addTask_blank (now created : Z) (st : State) :
  trim (newTask st) = [] -> addTask now created st = st.
Proof.
  intros H; unfold addTask. rewrite H; reflexivity.
Qed.

Lemma addTask_nonblank (now created : Z) (st : State) :
  trim (newTask st) <> [] ->
  addTask now created st =
  setNewTask []
    (setTasks (tasks st ++ [ {| id := Number_toString now;
                                text := trim (newTask st);
                                completed := false;
                                createdAt := TimeValue created |} ]) st).
Proof.
  intros H; unfold addTask.
  destruct (str_eqb (trim (newTask st)) []) eqn:E; [|reflexivity].
  apply str_eqb_nil in E; contradiction.
Qed.

Lemma ids_toggle (i : js_string) (ts : list Task) :
  ids (List.map (toggle_one i) ts) = ids ts.
Proof.
  unfold ids; rewrite map_map; apply map_ext.
  intros task; unfold toggle_one; destruct (str_eqb (id task) i); reflexivity.
Qed.

Lemma filter_subseq {A : Type} (f : A -> bool) (l : list A) :
  subseq (List.filter f l) l.
Proof.
  induction l as [|x l IH]; simpl; [constructor|].
  destruct (f x); constructor; exact IH.
Qed.

Lemma length_filter_split {A : Type} (f : A -> bool) (l : list A) :
  (length (List.filter f l)
   + length (List.filter (fun x => negb (f x)) l) = length l)%nat.
Proof.
  induction l as [|x l IH]; simpl; [reflexivity|].
  destruct (f x); simpl; lia.
Qed.

Lemma subseq_In {A : Type} (l1 l2 : list A) :
  subseq l1 l2 -> forall x, In x l1 -> In x l2.
Proof.
  induction 1; simpl; intuition.
Qed.

Lemma subseq_map {A B : Type} (g : A -> B) (l1 l2 : list A) :
  subseq l1 l2 -> subseq (List.map g l1) (List.map g l2).
Proof.
  induction 1; simpl; constructor; assumption.
Qed.

Lemma subseq_NoDup {A : Type} (l1 l2 : list A) :
  subseq l1 l2 -> NoDup l2 -> NoDup l1.
Proof.
  induction 1 as [|x l1 l2 Hs IH|x l1 l2 Hs IH]; intros Hnd; auto.
  - inversion Hnd; subst; auto.
  - inversion Hnd as [|? ? Hx Hl]; subst. constructor; auto.
    intros Hin; apply Hx; eapply subseq_In; eassumption.
Qed.

Lemma filter_all_true {A : Type} (f : A -> bool) (l : list A) :
  (forall x, In x l -> f x = true) -> List.filter f l = l.
Proof.
  induction l as [|x l IH]; simpl; intros H; [reflexivity|].
  rewrite (H x) by auto. f_equal; apply IH; auto.
Qed.

(** One step keeps the ids pairwise distinct when the clock reading of a
    submit prints to an id the store does not hold. *)
Lemma step_ids_unique (st : State) (a : Action) :
  NoDup (ids (tasks st)) ->
  (forall now created, a = Submit now created ->
     ~ In (Number_toString now) (ids (tasks st))) ->
  NoDup (ids (tasks (step st a))).
Proof.
  intros Hnd Hfresh. unfold step.
  destruct (enabled a st); [|exact Hnd].
  destruct a as [s|now created|i|i| |f| ]; simpl; try exact Hnd.
  - unfold addTask. destruct (str_eqb (trim (newTask st)) []); [exact Hnd|].
    simpl. unfold ids; rewrite map_app; simpl.
    apply NoDup_rev in Hnd. rewrite <- (rev_involutive (_ ++ _)).
    apply NoDup_rev. rewrite rev_app_distr; simpl.
    constructor; [|exact Hnd].
    rewrite <- in_rev. apply (Hfresh now created); reflexivity.
  - rewrite ids_toggle; exact Hnd.
  - eapply subseq_NoDup; [|exact Hnd].
    apply subseq_map, filter_subseq.
Qed.

Lemma step_ids_from_clock (st : State) (a : Action) (seen : list Z) :
  (forall i, In i (ids (tasks st)) ->
     exists n, In n seen /\ i = Number_toString n) ->
  forall i, In i (ids (tasks (step st a))) ->
    exists n, In n (seen ++ clock_readings [a]) /\ i = Number_toString n.
Proof.
  intros Hseen i. unfold step.
  assert (Hkeep : In i (ids (tasks st)) ->
            exists n, In n (seen ++ clock_readings [a])
                      /\ i = Number_toString n).
  { intros Hi; destruct (Hseen i Hi) as [n [Hn ->]].
    exists n; split; [apply in_or_app; left; exact Hn | reflexivity]. }
  destruct (enabled a st); [|exact Hkeep].
  destruct a as [s|now created|j|j| |f| ]; simpl handle; try exact Hkeep.
  - unfold addTask. destruct (str_eqb (trim (newTask st)) []); [exact Hkeep|].
    simpl tasks. unfold ids; rewrite map_app; simpl.
    intros Hi; apply in_app_or in Hi; destruct Hi as [Hi|[<-|[]]].
    + apply Hkeep; exact Hi.
    + exists now; split; [apply in_or_app; right; left|]; reflexivity.
  - simpl tasks; rewrite ids_toggle; exact Hkeep.
  - simpl tasks. intros Hi; apply Hkeep.
    eapply subseq_In; [|exact Hi]. apply subseq_map, filter_subseq.
Qed.

Lemma clock_readings_cons (a : Action) (l : list Action) :
  clock_readings (a :: l) = clock_readings [a] ++ clock_readings l.
Proof. destruct a; reflexivity. Qed.

Lemma run_ids_unique_from (l : list Action) :
  forall (st : State) (seen : list Z),
    NoDup (ids (tasks st)) ->
    (forall i, In i (ids (tasks st)) ->
       exists n, In n seen /\ i = Number_toString n) ->
    NoDup (seen ++ clock_readings l) ->
    NoDup (ids (tasks (run st l))).
Proof.
  induction l as [|a l IH]; intros st seen Hnd Hseen Hclock; [exact Hnd|].
  simpl. rewrite clock_readings_cons, app_assoc in Hclock.
  apply (IH (step st a) (seen ++ clock_readings [a])); [| |exact Hclock].
  - apply step_ids_unique; [exact Hnd|].
    intros now created -> Hin.
    destruct (Hseen _ Hin) as [n [Hn Heq]].
    apply Number_toString_inj in Heq; subst n.
    apply NoDup_app_remove_r in Hclock. simpl in Hclock.
    apply NoDup_remove_2 in Hclock. apply Hclock.
    rewrite app_nil_r; exact Hn.
  - apply step_ids_from_clock; exact Hseen.
Qed.

(** X6: with a clock that never returns the same reading to two submits, the
    ids of a session that starts empty stay pairwise distinct. *)
Lemma run_ids_unique (l : list Action) :
  NoDup (clock_readings l) -> NoDup (ids (tasks (run initial l))).
Proof.
  intros H. apply (run_ids_unique_from l initial []); simpl; auto.
  - constructor.
  - intros i [].
Qed.

(** C1: the ids of the store are not always pairwise distinct.  Two
    submits served with the same clock reading (1000 here) give two
    tasks the same id: the state is reachable from the empty store and
    its id list has a repetition. *)
Theorem same_clock_duplicate_ids :
  let st := run initial [Type_ (lit "a"); Submit 1000 1000;
                          Type_ (lit "b"); Submit 1000 1001] in
  reachable st
  /\ ids (tasks st) = [lit "1000"; lit "1000"]
  /\ ~ NoDup (ids (tasks st)).
Proof.
  split; [eexists; reflexivity|].
  split; [reflexivity|].
  intros H. vm_compute in H.
  inversion H as [|? ? Hin _]; subst. apply Hin; left; reflexivity.
Qed.

(** C2: adding ["  buy milk  "] to a store that holds a task made in the
    same millisecond appends one task with the trimmed text and
    [completed = false], but its id, ["1000"], is already in the store. *)
Theorem addTask_id_not_fresh :
  let st := run initial [Type_ (lit "a"); Submit 1000 1000;
                          Type_ (lit "  buy milk  ")] in
  reachable st
  /\ tasks (step st (Submit 1000 1000)) =
       tasks st ++ [ {| id := lit "1000"; text := lit "buy milk";
                        completed := false; createdAt := TimeValue 1000 |} ]
  /\ In (lit "1000") (ids (tasks st)).
Proof.
  split; [eexists; reflexivity|].
  split; [reflexivity | left; reflexivity].
Qed.

(** What [addTask] does on a text that is not blank, whatever the clock:
    one task at the end, the trimmed text, not completed, the id printed
    from the clock reading, the stored tasks before it as they were. *)
Lemma addTask_appends (now created : Z) (st : State) :
  trim (newTask st) <> [] ->
  exists task,
    tasks (addTask now created st) = tasks st ++ [task]
    /\ text task = trim (newTask st)
    /\ completed task = false
    /\ id task = Number_toString now
    /\ createdAt task = TimeValue created.
Proof.
  intros H. rewrite addTask_nonblank by exact H.
  eexists; split; [reflexivity|]. simpl; auto.
Qed.

Lemma toggle_one_other (i : js_string) (task : Task) :
  id task <> i -> toggle_one i task = task.
Proof.
  intros H; unfold toggle_one.
  apply str_eqb_neq in H; rewrite H; reflexivity.
Qed.

Lemma toggle_one_match (i : js_string) (task : Task) :
  id task = i -> toggle_one i task = flipped task.
Proof.
  intros H; unfold toggle_one. rewrite H, str_eqb_refl. subst i; reflexivity.
Qed.

Lemma map_toggle_others (i : js_string) (l : list Task) :
  (forall task, In task l -> id task <> i) -> List.map (toggle_one i) l = l.
Proof.
  induction l as [|x l IH]; simpl; intros H; [reflexivity|].
  rewrite toggle_one_other by auto. f_equal; apply IH; auto.
Qed.

Lemma state_eta (st : State) :
  {| tasks := tasks st; newTask := newTask st; filter := filter st;
     isFilterMenuOpen := isFilterMenuOpen st |} = st.
Proof. destruct st; reflexivity. Qed.

(** In a list with pairwise distinct ids no other task has the id of a
    given one. *)
Lemma unique_id_others (l1 l2 : list Task) (task : Task) :
  NoDup (ids (l1 ++ task :: l2)) ->
  forall u, In u (l1 ++ l2) -> id u <> id task.
Proof.
  unfold ids. rewrite map_app; simpl. intros Hnd u Hu Heq.
  apply NoDup_remove_2 in Hnd. apply Hnd.
  rewrite <- map_app, <- Heq. apply in_map; exact Hu.
Qed.

(** C3: [toggleTaskCompletion i] keeps the length and the positions of
    the sequence; at each position a task whose id is [i] comes back
    with [completed] negated and its other fields as they were, and a
    task with another id comes back as it was.  When one task has the
    id (as when the ids are pairwise distinct), it alone is flipped;
    when none has, the state is unchanged. *)
Theorem toggle_flips_matching (st : State) (i : js_string) :
  length (tasks (toggleTaskCompletion i st)) = length (tasks st)
  /\ (forall n task, nth_error (tasks st) n = Some task ->
        exists task',
          nth_error (tasks (toggleTaskCompletion i st)) n = Some task'
          /\ id task' = id task /\ text task' = text task
          /\ createdAt task' = createdAt task
          /\ (id task = i -> completed task' = negb (completed task))
          /\ (id task <> i -> task' = task))
  /\ (forall l1 task l2,
        tasks st = l1 ++ task :: l2 -> id task = i ->
        (forall u, In u (l1 ++ l2) -> id u <> i) ->
        tasks (toggleTaskCompletion i st) = l1 ++ flipped task :: l2)
  /\ (NoDup (ids (tasks st)) ->
      forall l1 task l2,
        tasks st = l1 ++ task :: l2 -> id task = i ->
        tasks (toggleTaskCompletion i st) = l1 ++ flipped task :: l2)
  /\ ((forall task, In task (tasks st) -> id task <> i) ->
        toggleTaskCompletion i st = st)
  /\ newTask (toggleTaskCompletion i st) = newTask st
  /\ filter (toggleTaskCompletion i st) = filter st
  /\ isFilterMenuOpen (toggleTaskCompletion i st) = isFilterMenuOpen st.
Proof.
  unfold toggleTaskCompletion; simpl.
  split; [apply length_map|].
  split.
  { intros n task Hn. exists (toggle_one i task).
    split; [apply map_nth_error; exact Hn|].
    unfold toggle_one; destruct (str_eqb (id task) i) eqn:E; simpl.
    - repeat split; auto. intros Hne; apply str_eqb_eq in E; contradiction.
    - repeat split; auto. intros He; apply str_eqb_neq in E; contradiction. }
  assert (Hone : forall l1 task l2,
             tasks st = l1 ++ task :: l2 -> id task = i ->
             (forall u, In u (l1 ++ l2) -> id u <> i) ->
             List.map (toggle_one i) (tasks st) = l1 ++ flipped task :: l2).
  { intros l1 task l2 Hts Hid Hothers. rewrite Hts, map_app; simpl.
    rewrite toggle_one_match by exact Hid.
    rewrite !map_toggle_others; [reflexivity| |];
      intros u Hu; apply Hothers; apply in_or_app; auto. }
  split; [exact Hone|].
  split.
  { intros Hnd l1 task l2 Hts Hid. apply Hone; [exact Hts | exact Hid|].
    rewrite Hts in Hnd. rewrite <- Hid. apply unique_id_others; exact Hnd. }
  split; [|auto].
  intros H. unfold setTasks. rewrite map_toggle_others by exact H.
  apply state_eta.
Qed.

(** Toggling the first of two tasks. *)
Lemma toggle_flips_matching_witness :
  let a := {| id := lit "1"; text := lit "A"; completed := false;
              createdAt := TimeValue 1 |} in
  let b := {| id := lit "2"; text := lit "B"; completed := false;
              createdAt := TimeValue 2 |} in
  tasks (toggleTaskCompletion (lit "1") (setTasks [a; b] initial))
  = [flipped a; b].
Proof.
  intros a b.
  apply (proj1 (proj2 (proj2
           (toggle_flips_matching (setTasks [a; b] initial) (lit "1"))))
         [] a [b]).
  - reflexivity.
  - reflexivity.
  - intros u [<- | []]. discriminate.
Defined.

(** C4, as stated, fails: in the store two submits at the clock reading
    1000 build, both tasks have the id ["1000"], and [deleteTask] on it
    removes the two of them, not one. *)
Lemma delete_shared_id_removes_all :
  ~ (forall st i,
       reachable st ->
       (exists task, In task (tasks st) /\ id task = i) ->
       exists l1 task l2,
         tasks st = l1 ++ task :: l2 /\ id task = i
         /\ tasks (deleteTask i st) = l1 ++ l2).
Proof.
  intros H.
  destruct (H (run initial [Type_ (lit "a"); Submit 1000 1000;
                            Type_ (lit "b"); Submit 1000 1001])
              (lit "1000"))
    as [l1 [task [l2 [Hts [_ Hdel]]]]].
  - eexists; reflexivity.
  - eexists. split; [left; reflexivity | reflexivity].
  - apply (f_equal (@length Task)) in Hts, Hdel.
    rewrite length_app in Hts, Hdel. simpl in Hts, Hdel. lia.
Qed.

(** C4, amended: after [deleteTask i] the store holds exactly the tasks
    whose id is not [i], each as often as before and in the order they
    had: every task with the id is removed.  When one task has the id
    (as when the ids are pairwise distinct), it alone is removed; when
    none has, the state is unchanged. *)
Theorem delete_removes_matching (st : State) (i : js_string) :
  (forall task, In task (tasks (deleteTask i st)) <->
                In task (tasks st) /\ id task <> i)
  /\ subseq (tasks (deleteTask i st)) (tasks st)
  /\ (length (tasks (deleteTask i st))
      + length (List.filter (fun task => str_eqb (id task) i) (tasks st))
      = length (tasks st))%nat
  /\ (forall l1 task l2,
        tasks st = l1 ++ task :: l2 -> id task = i ->
        (forall u, In u (l1 ++ l2) -> id u <> i) ->
        tasks (deleteTask i st) = l1 ++ l2)
  /\ (NoDup (ids (tasks st)) ->
      forall l1 task l2,
        tasks st = l1 ++ task :: l2 -> id task = i ->
        tasks (deleteTask i st) = l1 ++ l2)
  /\ ((forall task, In task (tasks st) -> id task <> i) ->
        deleteTask i st = st)
  /\ newTask (deleteTask i st) = newTask st
  /\ filter (deleteTask i st) = filter st
  /\ isFilterMenuOpen (deleteTask i st) = isFilterMenuOpen st.
Proof.
  unfold deleteTask; simpl.
  assert (Hall : forall l, (forall u : Task, In u l -> id u <> i) ->
            List.filter (fun task => negb (str_eqb (id task) i)) l = l).
  { intros l H; apply filter_all_true; intros u Hu.
    apply negb_true_iff, str_eqb_neq; auto. }
  split.
  { intros task. rewrite filter_In, negb_true_iff, str_eqb_neq; tauto. }
  split; [apply filter_subseq|].
  split.
  { rewrite Nat.add_comm.
    apply (length_filter_split (fun task => str_eqb (id task) i)). }
  assert (Hone : forall l1 task l2,
             tasks st = l1 ++ task :: l2 -> id task = i ->
             (forall u, In u (l1 ++ l2) -> id u <> i) ->
             List.filter (fun task => negb (str_eqb (id task) i)) (tasks st)
             = l1 ++ l2).
  { intros l1 task l2 Hts Hid Hothers. rewrite Hts, filter_app; simpl.
    rewrite Hid, str_eqb_refl; simpl.
    rewrite !Hall; [reflexivity| |];
      intros u Hu; apply Hothers; apply in_or_app; auto. }
  split; [exact Hone|].
  split.
  { intros Hnd l1 task l2 Hts Hid. apply (Hone l1 task l2 Hts Hid).
    rewrite Hts in Hnd. rewrite <- Hid. apply unique_id_others; exact Hnd. }
  split; [|auto].
  intros H. unfold setTasks. rewrite Hall by exact H. apply state_eta.
Qed.

(** Deleting the first of two tasks. *)
Lemma delete_removes_matching_witness :
  let a := {| id := lit "1"; text := lit "A"; completed := false;
              createdAt := TimeValue 1 |} in
  let b := {| id := lit "2"; text := lit "B"; completed := false;
              createdAt := TimeValue 2 |} in
  tasks (deleteTask (lit "1") (setTasks [a; b] initial)) = [b].
Proof.
  intros a b.
  apply (proj1 (proj2 (proj2 (proj2
           (delete_removes_matching (setTasks [a; b] initial) (lit "1")))))
         [] a [b]).
  - reflexivity.
  - reflexivity.
  - intros u [<- | []]. discriminate.
Defined.

(** An invariant of every step holds along every run. *)
Lemma run_invariant (P : State -> Prop) :
  (forall st a, P st -> P (step st a)) ->
  forall l st, P st -> P (run st l).
Proof.
  intros Hstep; induction l as [|a l IH]; intros st H; simpl; auto.
Qed.

Lemma step_text_not_blank (st : State) (a : Action) :
  (forall task, In task (tasks st) -> text_not_blank task) ->
  forall task, In task (tasks (step st a)) -> text_not_blank task.
Proof.
  intros Hinv task. unfold step.
  destruct (enabled a st); [|apply Hinv].
  destruct a as [s|now created|i|i| |f| ]; simpl handle; try apply Hinv.
  - unfold addTask.
    destruct (str_eqb (trim (newTask st)) []) eqn:E; [apply Hinv|].
    apply str_eqb_neq in E. simpl tasks.
    intros Hin; apply in_app_or in Hin; destruct Hin as [Hin|[<-|[]]].
    + apply Hinv; exact Hin.
    + split; simpl; [exact E|].
      destruct (forallb is_white_space (trim (newTask st))) eqn:F; auto.
      apply trim_nil_iff in F. rewrite trim_idem in F. contradiction.
  - simpl tasks. rewrite in_map_iff. intros [u [<- Hu]].
    specialize (Hinv u Hu). unfold text_not_blank, toggle_one in *.
    destruct (str_eqb (id u) i); exact Hinv.
  - simpl tasks. rewrite filter_In. intros [Hin _]; apply Hinv; exact Hin.
Qed.

(** C5: [addTask] on a text that is empty or made of white space only
    returns the state it was given: the sequence and the other cells are
    unchanged, and the handler has no other outcome.  So no step stores
    an empty or white-space-only text, and in a session that starts
    empty no stored task has one. *)
Theorem blank_add_is_noop :
  (forall st now created,
     forallb is_white_space (newTask st) = true ->
     addTask now created st = st)
  /\ (forall st a,
        (forall task, In task (tasks st) -> text_not_blank task) ->
        forall task, In task (tasks (step st a)) -> text_not_blank task)
  /\ (forall st, reachable st ->
        forall task, In task (tasks st) ->
          text task <> [] /\ forallb is_white_space (text task) = false).
Proof.
  split; [|split].
  - intros st now created H. apply addTask_blank, trim_nil_iff; exact H.
  - exact step_text_not_blank.
  - intros st [l ->].
    apply (run_invariant
             (fun st => forall task, In task (tasks st) -> text_not_blank task)).
    + exact step_text_not_blank.
    + intros task [].
Qed.

(** The two blank inputs of the specification. *)
Lemma blank_add_is_noop_witness :
  addTask 5 5 (setNewTask (lit "   ") initial) = setNewTask (lit "   ") initial
  /\ addTask 5 5 (setNewTask (lit "") initial) = setNewTask (lit "") initial.
Proof.
  split.
  - exact (proj1 blank_add_is_noop (setNewTask (lit "   ") initial) 5 5 eq_refl).
  - exact (proj1 blank_add_is_noop (setNewTask (lit "") initial) 5 5 eq_refl).
Defined.

(** ** The view filter and the counts *)

(** C6: the visible list is the stored list under [all]; under [active]
    it holds exactly the stored tasks with [completed = false] and under
    [completed] exactly those with [completed = true]; no task is in
    both, every stored task is in one of them and the two lengths add
    up to the length of the store; under every mode the
    visible list is the stored one with tasks left out and none moved
    or changed, and setting the mode leaves the store as it was. *)
Theorem filter_is_projection (st : State) :
  filteredTasks (setFilter all st) = tasks st
  /\ (forall task, In task (filteredTasks (setFilter active st)) <->
                   In task (tasks st) /\ completed task = false)
  /\ (forall task, In task (filteredTasks (setFilter completed_ st)) <->
                   In task (tasks st) /\ completed task = true)
  /\ (forall task, ~ (In task (filteredTasks (setFilter active st))
                      /\ In task (filteredTasks (setFilter completed_ st))))
  /\ (forall task, In task (tasks st) <->
                   In task (filteredTasks (setFilter active st))
                   \/ In task (filteredTasks (setFilter completed_ st)))
  /\ (length (filteredTasks (setFilter active st))
      + length (filteredTasks (setFilter completed_ st))
      = length (tasks st))%nat
  /\ subseq (filteredTasks st) (tasks st)
  /\ (forall f, tasks (setFilter f st) = tasks st).
Proof.
  unfold filteredTasks; simpl.
  assert (Ha : forall task,
             In task (List.filter (visible active) (tasks st)) <->
             In task (tasks st) /\ completed task = false).
  { intros task; rewrite filter_In; simpl; rewrite negb_true_iff; tauto. }
  assert (Hc : forall task,
             In task (List.filter (visible completed_) (tasks st)) <->
             In task (tasks st) /\ completed task = true).
  { intros task; rewrite filter_In; simpl; tauto. }
  split; [apply filter_all_true; reflexivity|].
  split; [exact Ha|]. split; [exact Hc|].
  split.
  { intros task; rewrite Ha, Hc. intros [[_ H1] [_ H2]]; congruence. }
  split.
  { intros task; rewrite Ha, Hc. destruct (completed task); intuition. }
  split.
  { rewrite Nat.add_comm.
    apply (length_filter_split (fun task => completed task)). }
  split; [apply filter_subseq | reflexivity].
Qed.

(** C10: the active and completed counts add up to the total; the total
    is the length of the whole store, the completed count the number of
    stored tasks with [completed = true] and the active count the number
    of those with [completed = false]; none of the three depends on the
    filter mode. *)
Theorem counts_add_up (st : State) :
  activeTasks st + completedTasks st = totalTasks st
  /\ totalTasks st = Z.of_nat (length (tasks st))
  /\ completedTasks st =
       Z.of_nat (count_occ bool_dec (List.map completed (tasks st)) true)
  /\ activeTasks st =
       Z.of_nat (count_occ bool_dec (List.map completed (tasks st)) false)
  /\ activeTasks st = Z.of_nat (length (filteredTasks (setFilter active st)))
  /\ (forall f, totalTasks (setFilter f st) = totalTasks st
                /\ activeTasks (setFilter f st) = activeTasks st
                /\ completedTasks (setFilter f st) = completedTasks st).
Proof.
  unfold activeTasks, completedTasks, totalTasks, filteredTasks; simpl.
  pose proof (length_filter_split (fun task => completed task) (tasks st)) as H.
  assert (Hc : forall (l : list Task) (b : bool),
             count_occ bool_dec (List.map completed l) b
             = length (List.filter (fun t => Bool.eqb (completed t) b) l)).
  { intros l b; induction l as [|x l IH]; simpl; [reflexivity|].
    destruct (bool_dec (completed x) b) as [e|n].
    - rewrite e, Bool.eqb_reflx; simpl. rewrite IH; reflexivity.
    - apply Bool.eqb_false_iff in n; rewrite n. exact IH. }
  assert (Ht : List.filter (fun t : Task => Bool.eqb (completed t) true) (tasks st)
               = List.filter (fun t => completed t) (tasks st)).
  { apply filter_ext; intros t; destruct (completed t); reflexivity. }
  assert (Hf : List.filter (fun t : Task => Bool.eqb (completed t) false) (tasks st)
               = List.filter (fun t => negb (completed t)) (tasks st)).
  { apply filter_ext; intros t; destruct (completed t); reflexivity. }
  rewrite !Hc, Ht, Hf.
  assert (Hv : List.filter (visible active) (tasks st)
               = List.filter (fun t => negb (completed t)) (tasks st)).
  { reflexivity. }
  rewrite Hv.
  repeat split; lia.
Qed.

(** The scenario of the specification: from the empty store add "A",
    add "B", toggle "A"; then [active] shows "B" alone, [completed]
    shows "A" alone, and the counts are 2, 1 and 1. *)
Example end_to_end :
  let st := run initial [Type_ (lit "A"); Submit 1 1;
                          Type_ (lit "B"); Submit 2 2; Toggle (lit "1")] in
  List.map text (filteredTasks (setFilter active st)) = [lit "B"]
  /\ List.map text (filteredTasks (setFilter completed_ st)) = [lit "A"]
  /\ totalTasks st = 2 /\ activeTasks st = 1 /\ completedTasks st = 1.
Proof. repeat split. Qed.

(** ** The filter selector *)

(** C9, as stated, fails: with an empty store, the mode [active] and the
    menu open (a reachable state), "Show all tasks" is rendered; it
    selects [all] and the menu stays open. *)
Lemma show_all_leaves_menu_open :
  ~ (forall st a f,
       reachable st -> enabled a st = true -> selects a = Some f ->
       isFilterMenuOpen st = true ->
       isFilterMenuOpen (step st a) = false /\ filter (step st a) = f).
Proof.
  intros H.
  specialize (H (run initial [FilterButton; MenuEntry active; FilterButton])
                ShowAll all).
  destruct H as [H _]; try reflexivity.
  - eexists; reflexivity.
  - discriminate H.
Qed.

(** C9, amended: the first render has the menu closed and the mode
    [all]; the filter button opens a closed menu; a menu entry, which
    only an open menu renders, closes the menu and sets its mode in one
    step; "Show all tasks" sets the mode [all] and leaves the menu as it
    is; no action of the selector changes the tasks or the text being
    typed. *)
Theorem selector_transitions (st : State) :
  isFilterMenuOpen initial = false /\ filter initial = all
  /\ (isFilterMenuOpen st = false ->
        isFilterMenuOpen (step st FilterButton) = true
        /\ filter (step st FilterButton) = filter st)
  /\ (forall f, isFilterMenuOpen st = true ->
        isFilterMenuOpen (step st (MenuEntry f)) = false
        /\ filter (step st (MenuEntry f)) = f)
  /\ (forall f, enabled (MenuEntry f) st = isFilterMenuOpen st)
  /\ (enabled ShowAll st = true ->
        filter (step st ShowAll) = all
        /\ isFilterMenuOpen (step st ShowAll) = isFilterMenuOpen st)
  /\ (forall a, selector_action a = true ->
        tasks (step st a) = tasks st /\ newTask (step st a) = newTask st).
Proof.
  split; [reflexivity|]. split; [reflexivity|].
  split.
  { intros H; unfold step; simpl. rewrite H; auto. }
  split.
  { intros f H; unfold step; simpl. unfold menu_rendered; rewrite H; auto. }
  split; [reflexivity|].
  split.
  { intros H; unfold step; rewrite H; auto. }
  intros a Ha; unfold step.
  destruct (enabled a st); [|auto].
  destruct a; try discriminate Ha; auto.
Qed.

(** Choosing [completed] in the open menu. *)
Lemma selector_transitions_witness :
  let st := run initial [FilterButton] in
  isFilterMenuOpen (step st (MenuEntry completed_)) = false
  /\ filter (step st (MenuEntry completed_)) = completed_.
Proof.
  intros st.
  exact (proj1 (proj2 (proj2 (proj2 (selector_transitions st))))
           completed_ eq_refl).
Defined.

(** ** Dates *)

Lemma DayFromYear_next (y : Z) : DayFromYear (y + 1) = DayFromYear y + DaysInYear y.
Proof.
  unfold DayFromYear, DaysInYear.
  destruct (y mod 4 =? 0) eqn:E4; destruct (y mod 100 =? 0) eqn:E100;
    destruct (y mod 400 =? 0) eqn:E400; cbv [negb];
    rewrite ?Z.eqb_eq, ?Z.eqb_neq in *; Z.div_mod_to_equations; lia.
Qed.

Lemma YearFromTime_spec (t : Z) :
  DayFromYear (YearFromTime t) <= Day t < DayFromYear (YearFromTime t + 1).
Proof.
  unfold YearFromTime. generalize (Day t); intros d.
  set (y := 1970 + 400 * d / 146097).
  destruct (DayFromYear (y + 1) <=? d) eqn:E1.
  - apply Z.leb_le in E1. split; [exact E1|].
    unfold DayFromYear in *. subst y. Z.div_mod_to_equations; lia.
  - apply Z.leb_gt in E1.
    destruct (DayFromYear y <=? d) eqn:E2.
    + apply Z.leb_le in E2. lia.
    + apply Z.leb_gt in E2. replace (y - 1 + 1) with y by lia.
      split; [|exact E2]. unfold DayFromYear in *. subst y. Z.div_mod_to_equations; lia.
Qed.

Lemma DayFromYear_mono (y y' : Z) :
  y <= y' -> DayFromYear y <= DayFromYear y'.
Proof.
  intros H. unfold DayFromYear. Z.div_mod_to_equations; lia.
Qed.

(** [YearFromTime t] is the largest year that starts at or before [t]. *)
Lemma YearFromTime_largest (t : Z) :
  TimeFromYear (YearFromTime t) <= t
  /\ (forall y, TimeFromYear y <= t -> y <= YearFromTime t).
Proof.
  pose proof (YearFromTime_spec t) as [Hlo Hhi].
  unfold TimeFromYear, Day, msPerDay in *. split.
  - Z.div_mod_to_equations; lia.
  - intros y Hy.
    destruct (Z_le_gt_dec y (YearFromTime t)) as [|Hgt]; [assumption|].
    pose proof (DayFromYear_mono (YearFromTime t + 1) y ltac:(lia)) as Hm.
    Z.div_mod_to_equations; lia.
Qed.

Lemma InLeapYear_days (t : Z) :
  (InLeapYear t = 0 \/ InLeapYear t = 1)
  /\ DaysInYear (YearFromTime t) = 365 + InLeapYear t.
Proof.
  unfold InLeapYear, DaysInYear.
  destruct (negb (YearFromTime t mod 4 =? 0));
    [|destruct (negb (YearFromTime t mod 100 =? 0));
      [|destruct (negb (YearFromTime t mod 400 =? 0))]];
    simpl; auto.
Qed.

Lemma DayWithinYear_range (t : Z) :
  0 <= DayWithinYear t < 365 + InLeapYear t.
Proof.
  unfold DayWithinYear.
  pose proof (YearFromTime_spec t) as H.
  rewrite DayFromYear_next in H.
  destruct (InLeapYear_days t) as [_ <-]. lia.
Qed.

Lemma MonthFromTime_range (t : Z) : 0 <= MonthFromTime t <= 11.
Proof.
  unfold MonthFromTime.
  repeat match goal with |- context [if ?b then _ else _] => destruct b end; lia.
Qed.

(** The day of the year lies in the month [MonthFromTime] names. *)
Lemma month_start_bracket (t : Z) :
  month_start (InLeapYear t) (MonthFromTime t) <= DayWithinYear t
  < month_start (InLeapYear t) (MonthFromTime t + 1).
Proof.
  pose proof (DayWithinYear_range t) as Hr.
  destruct (InLeapYear_days t) as [Hl _].
  unfold MonthFromTime. revert Hr.
  generalize (DayWithinYear t); intros d.
  destruct Hl as [-> | ->]; intros Hr;
    repeat match goal with
           | |- context [if ?a <? ?b then _ else _] =>
               destruct (Z.ltb_spec a b)
           end; simpl; lia.
Qed.

Lemma MakeDay_of_time (t : Z) :
  MakeDay (YearFromTime t) (MonthFromTime t) (DateFromTime t) = Day t.
Proof.
  unfold MakeDay, DateFromTime, DayWithinYear, InLeapYear. lia.
Qed.

Lemma DateFromTime_range (t : Z) :
  1 <= DateFromTime t <= DaysInMonth (YearFromTime t) (MonthFromTime t + 1).
Proof.
  pose proof (month_start_bracket t) as H.
  unfold DateFromTime, DaysInMonth. fold (InLeapYear t).
  replace (MonthFromTime t + 1 - 1) with (MonthFromTime t) by lia. lia.
Qed.

Lemma MakeTime_of_time (t : Z) :
  MakeTime (HourFromTime t) (MinFromTime t) (SecFromTime t) (msFromTime t)
  = TimeWithinDay t.
Proof.
  unfold MakeTime, HourFromTime, MinFromTime, SecFromTime, msFromTime,
    TimeWithinDay, msPerHour, msPerMinute, msPerSecond, msPerDay.
  Z.div_mod_to_equations; lia.
Qed.

Lemma MakeDate_of_time (t : Z) : MakeDate (Day t) (TimeWithinDay t) = t.
Proof.
  unfold MakeDate, Day, TimeWithinDay, msPerDay.
  Z.div_mod_to_equations; lia.
Qed.

Lemma time_fields_range (t : Z) :
  0 <= HourFromTime t <= 23 /\ 0 <= MinFromTime t <= 59
  /\ 0 <= SecFromTime t <= 59 /\ 0 <= msFromTime t <= 999.
Proof.
  unfold HourFromTime, MinFromTime, SecFromTime, msFromTime, msPerSecond.
  Z.div_mod_to_equations; lia.
Qed.

Lemma YearFromTime_range (t : Z) :
  valid_time t -> -271821 <= YearFromTime t <= 275760.
Proof.
  unfold valid_time, maxTime. intros Ht.
  pose proof (YearFromTime_spec t) as H.
  assert (Hd : -100000000 <= Day t <= 100000000).
  { unfold Day, msPerDay. Z.div_mod_to_equations; lia. }
  revert H Hd. generalize (Day t) (YearFromTime t). intros d y.
  unfold DayFromYear. Z.div_mod_to_equations; lia.
Qed.

(** *** Digits *)

Lemma is_digit_digit (k : Z) : 0 <= k <= 9 -> is_digit (digit k) = true.
Proof.
  intros H; unfold is_digit, digit.
  apply andb_true_iff; split; apply Z.leb_le; lia.
Qed.

Lemma read_digits_pad (w : nat) :
  forall (w' : nat) (n acc : Z) (rest : js_string),
    0 <= n < 10 ^ Z.of_nat w ->
    read_digits (w + w') acc (pad w n ++ rest)
    = read_digits w' (acc * 10 ^ Z.of_nat w + n) rest.
Proof.
  induction w as [|w IH]; intros w' n acc rest Hn.
  - simpl in *. f_equal; lia.
  - rewrite Nat2Z.inj_succ, Z.pow_succ_r in Hn by lia.
    simpl pad. rewrite <- app_assoc. simpl app.
    replace (S w + w')%nat with (w + S w')%nat by lia.
    rewrite IH by (Z.div_mod_to_equations; lia).
    cbn [read_digits].
    rewrite is_digit_digit by (Z.div_mod_to_equations; lia).
    f_equal. unfold digit.
    rewrite Nat2Z.inj_succ, Z.pow_succ_r by lia.
    Z.div_mod_to_equations; lia.
Qed.

Lemma read_digits_pad0 (w : nat) (n : Z) (rest : js_string) :
  0 <= n < 10 ^ Z.of_nat w ->
  read_digits w 0 (pad w n ++ rest) = Some (n, rest).
Proof.
  intros Hn. rewrite <- (Nat.add_0_r w) at 1.
  rewrite read_digits_pad by exact Hn. reflexivity.
Qed.

Lemma pad_head (w : nat) (n : Z) (rest : js_string) :
  0 <= n ->
  exists c l, pad (S w) n ++ rest = c :: l /\ is_digit c = true.
Proof.
  revert n rest; induction w as [|w IH]; intros n rest Hn.
  - simpl. eexists _, _; split; [reflexivity|].
    apply is_digit_digit. Z.div_mod_to_equations; lia.
  - change (pad (S (S w)) n) with (pad (S w) (n / 10) ++ [digit (n mod 10)]).
    rewrite <- app_assoc.
    apply IH. Z.div_mod_to_equations; lia.
Qed.

Lemma read_year_string (y : Z) (rest : js_string) :
  -999999 <= y <= 999999 ->
  read_year (year_string y ++ rest) = Some (y, rest).
Proof.
  intros Hy. unfold year_string.
  destruct ((0 <=? y) && (y <=? 9999)) eqn:E.
  - apply andb_true_iff in E; destruct E as [E1 E2].
    apply Z.leb_le in E1, E2.
    destruct (pad_head 3 y rest E1) as [c [l [Heq Hc]]].
    unfold read_year. rewrite Heq.
    unfold is_digit in Hc. apply andb_true_iff in Hc; destruct Hc as [H1 H2].
    apply Z.leb_le in H1, H2.
    destruct (Z.eqb_spec c 43); [lia|]. destruct (Z.eqb_spec c 45); [lia|].
    rewrite <- Heq. apply read_digits_pad0.
    change (10 ^ Z.of_nat 4) with 10000; lia.
  - apply andb_false_iff in E.
    destruct (Z.ltb_spec y 0) as [Hneg|Hpos].
    + change ((lit "-" ++ pad 6 (- y)) ++ rest)
        with (45 :: pad 6 (- y) ++ rest).
      unfold read_year. change (45 =? 43) with false.
      change (45 =? 45) with true. cbv iota.
      rewrite read_digits_pad0 by (change (10 ^ Z.of_nat 6) with 1000000; lia).
      unfold bind, guard.
      destruct (Z.eqb_spec (- y) 0); [lia|]. simpl negb. cbv iota.
      rewrite Z.opp_involutive; reflexivity.
    + change ((lit "+" ++ pad 6 y) ++ rest) with (43 :: pad 6 y ++ rest).
      unfold read_year. change (43 =? 43) with true. cbv iota.
      apply read_digits_pad0. change (10 ^ Z.of_nat 6) with 1000000.
      destruct E as [E|E]; [apply Z.leb_gt in E | apply Z.leb_gt in E]; lia.
Qed.

Lemma expect_cons (c : code_unit) (rest : js_string) :
  expect c (c :: rest) = Some rest.
Proof. unfold expect; rewrite Z.eqb_refl; reflexivity. Qed.

Lemma toISOString_cons (t : Z) :
  toISOString t =
  year_string (YearFromTime t) ++ 45 :: pad 2 (MonthFromTime t + 1)
  ++ 45 :: pad 2 (DateFromTime t) ++ 84 :: pad 2 (HourFromTime t)
  ++ 58 :: pad 2 (MinFromTime t) ++ 58 :: pad 2 (SecFromTime t)
  ++ 46 :: pad 3 (msFromTime t) ++ [90].
Proof. reflexivity. Qed.

(** [Date.parse] reads back what [toISOString] printed. *)
Lemma parse_iso_utc_toISOString (t : Z) :
  valid_time t -> parse_iso_utc (toISOString t) = Some t.
Proof.
  intros Ht. pose proof (YearFromTime_range t Ht) as Hy.
  pose proof (MonthFromTime_range t) as Hm.
  pose proof (DateFromTime_range t) as Hd.
  pose proof (time_fields_range t) as [Hh [Hmi [Hs Hms]]].
  assert (Hdm : DaysInMonth (YearFromTime t) (MonthFromTime t + 1) <= 31).
  { unfold DaysInMonth.
    destruct (DaysInYear (YearFromTime t) =? 365);
      assert (H : MonthFromTime t = 0 \/ MonthFromTime t = 1
                  \/ MonthFromTime t = 2 \/ MonthFromTime t = 3
                  \/ MonthFromTime t = 4 \/ MonthFromTime t = 5
                  \/ MonthFromTime t = 6 \/ MonthFromTime t = 7
                  \/ MonthFromTime t = 8 \/ MonthFromTime t = 9
                  \/ MonthFromTime t = 10 \/ MonthFromTime t = 11) by lia;
      repeat (destruct H as [-> | H]; [simpl; lia|]); rewrite H; simpl; lia. }
  assert (P10 : forall k, 0 <= k <= 99 -> 0 <= k < 10 ^ Z.of_nat 2)
    by (intros k Hk; change (10 ^ Z.of_nat 2) with 100; lia).
  rewrite toISOString_cons. unfold parse_iso_utc.
  rewrite read_year_string by lia. cbn [bind].
  rewrite expect_cons. cbn [bind].
  rewrite read_digits_pad0 by (apply P10; lia). cbn [bind].
  rewrite expect_cons. cbn [bind].
  rewrite read_digits_pad0 by (apply P10; lia). cbn [bind].
  rewrite expect_cons. cbn [bind].
  rewrite read_digits_pad0 by (apply P10; lia). cbn [bind].
  rewrite expect_cons. cbn [bind].
  rewrite read_digits_pad0 by (apply P10; lia). cbn [bind].
  rewrite expect_cons. cbn [bind].
  rewrite read_digits_pad0 by (apply P10; lia). cbn [bind].
  rewrite expect_cons. cbn [bind].
  rewrite read_digits_pad0 by (change (10 ^ Z.of_nat 3) with 1000; lia).
  cbn [bind]. rewrite expect_cons. cbn [bind guard].
  replace ((1 <=? MonthFromTime t + 1) && (MonthFromTime t + 1 <=? 12))
    with true by (symmetry; apply andb_true_iff; split; apply Z.leb_le; lia).
  cbn [bind guard].
  replace ((1 <=? DateFromTime t)
           && (DateFromTime t <=? DaysInMonth (YearFromTime t) (MonthFromTime t + 1)))
    with true by (symmetry; apply andb_true_iff; split; apply Z.leb_le; lia).
  cbn [bind guard].
  replace ((HourFromTime t <=? 23) && (MinFromTime t <=? 59)
           && (SecFromTime t <=? 59))
    with true
    by (symmetry; rewrite !andb_true_iff; repeat split; apply Z.leb_le; lia).
  cbn [bind guard].
  replace (MonthFromTime t + 1 - 1) with (MonthFromTime t) by lia.
  rewrite MakeDay_of_time, MakeTime_of_time, MakeDate_of_time. reflexivity.
Qed.

(** ** JSON strings *)

Lemma hex_value_digit (k : Z) :
  0 <= k < 16 -> hex_value (hex_digit k) = Some k.
Proof.
  intros Hk. unfold hex_value, hex_digit.
  destruct (Z.ltb_spec k 10).
  - replace ((48 <=? 48 + k) && (48 + k <=? 57)) with true
      by (symmetry; apply andb_true_iff; split; apply Z.leb_le; lia).
    f_equal; lia.
  - replace ((48 <=? 87 + k) && (87 + k <=? 57)) with false
      by (symmetry; apply andb_false_iff; right; apply Z.leb_gt; lia).
    replace ((97 <=? 87 + k) && (87 + k <=? 102)) with true
      by (symmetry; apply andb_true_iff; split; apply Z.leb_le; lia).
    f_equal; lia.
Qed.

Lemma parse_unicode_escape (c : code_unit) (tail : js_string) :
  0 <= c < 65536 ->
  parse_string_body (unicode_escape c ++ tail)
  = (p <- parse_string_body tail ;; Some (cons_fst c p)).
Proof.
  intros Hc. unfold unicode_escape. cbn [app parse_string_body].
  change (92 =? 34) with false. change (92 =? 92) with true.
  change (117 =? 117) with true. cbv iota.
  unfold hex4.
  rewrite !hex_value_digit by (Z.div_mod_to_equations; lia).
  cbn [bind].
  replace (4096 * (c / 4096 mod 16) + 256 * (c / 256 mod 16)
           + 16 * (c / 16 mod 16) + c mod 16) with c
    by (Z.div_mod_to_equations; lia).
  reflexivity.
Qed.

Lemma parse_plain_unit (c : code_unit) (tail : js_string) :
  c <> 34 -> c <> 92 -> 32 <= c ->
  parse_string_body (c :: tail)
  = (p <- parse_string_body tail ;; Some (cons_fst c p)).
Proof.
  intros H1 H2 H3. cbn [parse_string_body].
  destruct (Z.eqb_spec c 34); [contradiction|].
  destruct (Z.eqb_spec c 92); [contradiction|].
  destruct (Z.ltb_spec c 32); [lia|]. reflexivity.
Qed.

Lemma parse_quote_unit (c : code_unit) (tail : js_string) :
  0 <= c < 65536 ->
  parse_string_body (quote_unit c ++ tail)
  = (p <- parse_string_body tail ;; Some (cons_fst c p)).
Proof.
  intros Hc. unfold quote_unit.
  repeat match goal with
         | |- context [if ?a =? ?b then _ else _] =>
             destruct (Z.eqb_spec a b); [subst c; reflexivity|]
         end.
  destruct ((c <? 32) || is_surrogate c) eqn:E.
  - apply parse_unicode_escape; exact Hc.
  - apply orb_false_iff in E; destruct E as [E _]. apply Z.ltb_ge in E.
    apply parse_plain_unit; assumption.
Qed.

Lemma parse_string_body_quote_le (n : nat) :
  forall (s rest : js_string),
    (length s <= n)%nat -> code_units s ->
    parse_string_body (quote_body s ++ 34 :: rest) = Some (s, rest).
Proof.
  induction n as [|n IH]; intros s rest Hlen Hs.
  - destruct s; [reflexivity | simpl in Hlen; lia].
  - destruct s as [|c s']; [reflexivity|].
    inversion Hs as [|? ? Hc Hs']; subst.
    simpl in Hlen. cbn [quote_body].
    destruct (is_high_surrogate c) eqn:Eh.
    + unfold is_high_surrogate in Eh.
      apply andb_true_iff in Eh; destruct Eh as [Eh1 Eh2].
      apply Z.leb_le in Eh1, Eh2.
      destruct s' as [|d s''].
      * rewrite parse_unicode_escape by exact Hc. reflexivity.
      * inversion Hs' as [|? ? Hd Hs'']; subst. simpl in Hlen.
        destruct (is_low_surrogate d) eqn:El.
        -- unfold is_low_surrogate in El.
           apply andb_true_iff in El; destruct El as [El1 El2].
           apply Z.leb_le in El1, El2.
           cbn [app].
           rewrite parse_plain_unit by lia.
           rewrite parse_plain_unit by lia.
           rewrite IH by (assumption || lia). reflexivity.
        -- rewrite <- app_assoc.
           rewrite parse_unicode_escape by exact Hc.
           rewrite IH by (assumption || simpl; lia). reflexivity.
    + rewrite <- app_assoc. rewrite parse_quote_unit by exact Hc.
      rewrite IH by (assumption || lia). reflexivity.
Qed.

(** [JSON.parse] reads back the string [QuoteJSONString] wrote. *)
Lemma parse_string_body_quote (s rest : js_string) :
  code_units s ->
  parse_string_body (quote_body s ++ 34 :: rest) = Some (s, rest).
Proof.
  intros Hs. apply (parse_string_body_quote_le (length s)); auto.
Qed.

(** ** JSON values written by [stringify] *)

Lemma skip_ws_cons (c : code_unit) (r : js_string) :
  is_json_ws c = false -> skip_ws (c :: r) = c :: r.
Proof. intros H; simpl; rewrite H; reflexivity. Qed.

Lemma QuoteJSONString_app (s rest : js_string) :
  QuoteJSONString s ++ rest = 34 :: quote_body s ++ 34 :: rest.
Proof.
  unfold QuoteJSONString. simpl. rewrite <- app_assoc. reflexivity.
Qed.

Lemma parse_value_string (f : nat) (s rest : js_string) :
  code_units s ->
  parse_value (S f) (QuoteJSONString s ++ rest) = Ok (JStr s, rest).
Proof.
  intros Hs. rewrite QuoteJSONString_app.
  cbn [parse_value]. rewrite skip_ws_cons by reflexivity.
  change (34 =? 34) with true. cbv iota.
  rewrite parse_string_body_quote by exact Hs. reflexivity.
Qed.

Lemma parse_value_bool (f : nat) (b : bool) (rest : js_string) :
  parse_value (S f) (stringify_bool b ++ rest) = Ok (JBool b, rest).
Proof. destruct b; reflexivity. Qed.

Lemma parse_value_null (f : nat) (rest : js_string) :
  parse_value (S f) (lit "null" ++ rest) = Ok (JNull, rest).
Proof. reflexivity. Qed.

Lemma code_units_app (a b : js_string) :
  code_units a -> code_units b -> code_units (a ++ b).
Proof. intros Ha Hb; apply Forall_app; split; assumption. Qed.

Lemma code_units_pad (w : nat) (n : Z) : code_units (pad w n).
Proof.
  revert n; induction w as [|w IH]; intros n; simpl; [constructor|].
  apply code_units_app; [apply IH|].
  constructor; [|constructor]. unfold digit. Z.div_mod_to_equations; lia.
Qed.

Lemma code_units_toISOString (t : Z) : code_units (toISOString t).
Proof.
  unfold toISOString.
  repeat (apply code_units_app;
          [first [apply code_units_pad
                 | repeat constructor; lia
                 | idtac]|]).
  - unfold year_string.
    destruct ((0 <=? YearFromTime t) && (YearFromTime t <=? 9999));
      [apply code_units_pad|].
    destruct (YearFromTime t <? 0);
      (apply code_units_app; [repeat constructor; lia | apply code_units_pad]).
  - repeat constructor; lia.
Qed.

Lemma parse_value_Date (f : nat) (d : Date) (rest : js_string) :
  parse_value (S f) (stringify_Date d ++ rest) = Ok (Date_json d, rest).
Proof.
  destruct d as [|t]; [reflexivity|].
  apply parse_value_string, code_units_toISOString.
Qed.


(** One member of an object, up to the comma or the brace after it. *)
Lemma parse_members_one (f : nat) (k vt : js_string) (v : json)
      (c : code_unit) (rest : js_string) :
  code_units k ->
  parse_value f (vt ++ c :: rest) = Ok (v, c :: rest) ->
  is_json_ws c = false ->
  parse_members (S f) (QuoteJSONString k ++ 58 :: vt ++ c :: rest)
  = if c =? 44 then map_outcome (cons_fst (k, v)) (parse_members f rest)
    else if c =? 125 then Ok ([(k, v)], rest)
    else SyntaxError.
Proof.
  intros Hk Hv Hc. rewrite QuoteJSONString_app.
  cbn [parse_members]. rewrite skip_ws_cons by reflexivity.
  rewrite expect_cons.
  rewrite parse_string_body_quote by exact Hk.
  rewrite skip_ws_cons by reflexivity. rewrite expect_cons.
  rewrite Hv. rewrite skip_ws_cons by exact Hc. reflexivity.
Qed.

Lemma stringify_Task_cons (task : Task) (rest : js_string) :
  stringify_Task task ++ rest
  = 123 :: QuoteJSONString (lit "id") ++ 58 :: QuoteJSONString (id task)
    ++ 44 :: QuoteJSONString (lit "text") ++ 58 :: QuoteJSONString (text task)
    ++ 44 :: QuoteJSONString (lit "completed") ++ 58
         :: stringify_bool (completed task)
    ++ 44 :: QuoteJSONString (lit "createdAt") ++ 58
         :: stringify_Date (createdAt task) ++ 125 :: rest.
Proof.
  unfold stringify_Task.
  change (lit "{") with [123]. change (lit ":") with [58].
  change (lit ",") with [44]. change (lit "}") with [125].
  repeat (rewrite <- app_assoc; cbn [app]). reflexivity.
Qed.

Lemma code_units_lit_ascii :
  code_units (lit "id") /\ code_units (lit "text")
  /\ code_units (lit "completed") /\ code_units (lit "createdAt").
Proof. repeat split; repeat constructor; lia. Qed.

Lemma parse_value_Task (f : nat) (task : Task) (rest : js_string) :
  code_units (id task) -> code_units (text task) ->
  parse_value (6 + f) (stringify_Task task ++ rest) = Ok (Task_json task, rest).
Proof.
  intros Hi Ht. destruct code_units_lit_ascii as [K1 [K2 [K3 K4]]].
  rewrite stringify_Task_cons.
  change (6 + f)%nat with (S (S (S (S (S (S f)))))).
  cbn [parse_value]. rewrite skip_ws_cons by reflexivity.
  change (123 =? 34) with false. change (123 =? 91) with false.
  change (123 =? 123) with true. cbv iota.
  rewrite QuoteJSONString_app at 1. rewrite skip_ws_cons by reflexivity.
  change (expect 125 (34 :: ?x)) with (@None js_string). cbv iota.
  rewrite (parse_members_one _ _ _ (JStr (id task)) 44)
    by (auto using parse_value_string).
  rewrite (parse_members_one _ _ _ (JStr (text task)) 44)
    by (auto using parse_value_string).
  rewrite (parse_members_one _ _ _ (JBool (completed task)) 44)
    by (auto using parse_value_bool).
  rewrite (parse_members_one _ _ _ (Date_json (createdAt task)) 125)
    by (auto using parse_value_Date).
  reflexivity.
Qed.

Lemma stringify_Task_head (task : Task) (rest : js_string) :
  exists l, stringify_Task task ++ rest = 123 :: l.
Proof. rewrite stringify_Task_cons. eexists; reflexivity. Qed.

(** The elements of a non-empty array of tasks, up to its bracket. *)
Lemma parse_elements_Tasks (ts : list Task) :
  forall (task : Task) (f : nat) (rest : js_string),
    Forall (fun t => code_units (id t) /\ code_units (text t)) (task :: ts) ->
    parse_elements (length (task :: ts) + 6 + f)
      (join_comma (List.map stringify_Task (task :: ts)) ++ 93 :: rest)
    = Ok (List.map Task_json (task :: ts), rest).
Proof.
  induction ts as [|t' ts IH]; intros task f rest Hwf;
    inversion Hwf as [|? ? [Hi Ht] Hwf']; subst.
  - cbn [List.map join_comma length Nat.add parse_elements].
    rewrite (parse_value_Task f) by assumption.
    rewrite skip_ws_cons by reflexivity. reflexivity.
  - change (join_comma (List.map stringify_Task (task :: t' :: ts)))
      with (stringify_Task task ++ lit ","
            ++ join_comma (List.map stringify_Task (t' :: ts))).
    change (lit ",") with [44]. rewrite <- !app_assoc. cbn [app].
    change (length (task :: t' :: ts) + 6 + f)%nat
      with (S (length (t' :: ts) + 6 + f)).
    cbn [parse_elements].
    replace (length (t' :: ts) + 6 + f)%nat
      with (6 + (length (t' :: ts) + f))%nat at 1 by lia.
    rewrite parse_value_Task by assumption.
    rewrite skip_ws_cons by reflexivity.
    change (44 =? 44) with true. cbv iota.
    rewrite IH by exact Hwf'. reflexivity.
Qed.

Lemma length_join_comma (l : list js_string) :
  (forall x, In x l -> (1 <= length x)%nat) ->
  (length l <= length (join_comma l))%nat.
Proof.
  induction l as [|x l IH]; intros H; [simpl; lia|].
  assert (Hx : (1 <= length x)%nat) by (apply H; left; reflexivity).
  assert (Hl : (length l <= length (join_comma l))%nat)
    by (apply IH; intros y Hy; apply H; right; exact Hy).
  cbn [join_comma]. destruct l as [|y l]; [simpl in *; lia|].
  rewrite !length_app. simpl length in *. lia.
Qed.

(** [JSON.parse] reads back the array [JSON.stringify] wrote. *)
Lemma parse_stringify (ts : list Task) :
  Forall (fun t => code_units (id t) /\ code_units (text t)) ts ->
  JSON.parse (JSON.stringify ts) = Some (JArr (List.map Task_json ts)).
Proof.
  intros Hwf. unfold JSON.parse, parse_text, JSON.stringify.
  destruct ts as [|task ts]; [reflexivity|].
  change (lit "[") with [91]. change (lit "]") with [93]. cbn [app].
  set (body := join_comma (List.map stringify_Task (task :: ts))).
  assert (Hlen : (length (task :: ts) <= length body)%nat).
  { unfold body. rewrite <- (length_map stringify_Task (task :: ts)).
    apply length_join_comma. intros x Hx. apply in_map_iff in Hx.
    destruct Hx as [t [<- _]].
    destruct (stringify_Task_head t []) as [l Hl].
    rewrite app_nil_r in Hl. rewrite Hl. simpl; lia. }
  unfold fuel_for. cbn [length]. rewrite length_app. cbn [length].
  replace (2 * S (length body + 1) + 2)%nat
    with (S (length (task :: ts) + 6
             + (2 * length body - length (task :: ts) - 1)))%nat
    by (simpl length in *; lia).
  cbn [parse_value]. rewrite skip_ws_cons by reflexivity.
  change (91 =? 34) with false. change (91 =? 91) with true. cbv iota.
  assert (Hhead : exists l, body ++ [93] = 123 :: l).
  { unfold body. cbn [List.map join_comma].
    destruct (List.map stringify_Task ts).
    - apply stringify_Task_head.
    - rewrite <- app_assoc. apply stringify_Task_head. }
  destruct Hhead as [l Hl]. rewrite Hl at 1.
  rewrite skip_ws_cons by reflexivity.
  change (expect 93 (123 :: l)) with (@None js_string). cbv iota.
  unfold body. rewrite parse_elements_Tasks by exact Hwf.
  reflexivity.
Qed.

(** ** The parser always has fuel enough *)

Lemma skip_ws_length (s : js_string) : (length (skip_ws s) <= length s)%nat.
Proof.
  induction s as [|c s IH]; simpl; [lia|].
  destruct (is_json_ws c); simpl; lia.
Qed.

Lemma expect_length (c : code_unit) (s r : js_string) :
  expect c s = Some r -> length s = S (length r).
Proof.
  destruct s as [|c' s]; simpl; [discriminate|].
  destruct (c' =? c); [|discriminate]. intros [= ->]; reflexivity.
Qed.

Lemma strip_prefix_length (p : js_string) :
  forall s r, strip_prefix p s = Some r -> (length r <= length s)%nat.
Proof.
  induction p as [|c p IH]; intros s r; simpl.
  - intros [= ->]; lia.
  - destruct (expect c s) as [s'|] eqn:E; simpl; [|discriminate].
    intros H. apply IH in H. apply expect_length in E. lia.
Qed.

Lemma parse_string_body_length_le (n : nat) :
  forall s str r,
    (length s <= n)%nat ->
    parse_string_body s = Some (str, r) -> (length r < length s)%nat.
Proof.
  induction n as [|n IH]; intros s str r Hn.
  - destruct s; [discriminate | simpl in Hn; lia].
  - destruct s as [|c s]; [discriminate|]. simpl in Hn.
    cbn [parse_string_body].
    destruct (c =? 34); [intros [= _ ->]; simpl; lia|].
    destruct (c =? 92).
    + destruct s as [|e s]; [discriminate|]. simpl in Hn.
      destruct (e =? 117).
      * destruct s as [|h1 [|h2 [|h3 [|h4 s]]]]; try discriminate.
        simpl in Hn.
        destruct (hex4 h1 h2 h3 h4); [|discriminate]. cbn [bind].
        destruct (parse_string_body s) as [[str' r']|] eqn:E; [|discriminate].
        cbn [bind cons_fst fst snd]. intros [= _ <-].
        apply IH in E; [simpl; lia | lia].
      * destruct (simple_escape e); [|discriminate]. cbn [bind].
        destruct (parse_string_body s) as [[str' r']|] eqn:E; [|discriminate].
        cbn [bind cons_fst fst snd]. intros [= _ <-].
        apply IH in E; [simpl; lia | lia].
    + destruct (c <? 32); [discriminate|].
      destruct (parse_string_body s) as [[str' r']|] eqn:E; [|discriminate].
      cbn [bind cons_fst fst snd]. intros [= _ <-].
      apply IH in E; [simpl; lia | lia].
Qed.

Lemma parse_string_body_length (s str r : js_string) :
  parse_string_body s = Some (str, r) -> (length r < length s)%nat.
Proof. apply (parse_string_body_length_le (length s)); lia. Qed.

Lemma take_digits_length (s : js_string) :
  (length (snd (take_digits s)) <= length s)%nat.
Proof.
  induction s as [|c s IH]; [simpl; lia|].
  cbn [take_digits]. destruct (is_digit c).
  - unfold cons_fst. cbn [snd length]. lia.
  - cbn [snd length]. lia.
Qed.

Lemma digits1_length (s ds r : js_string) :
  digits1 s = Some (ds, r) -> (length r <= length s)%nat.
Proof.
  unfold digits1. pose proof (take_digits_length s) as H.
  destruct (take_digits s) as [[|d ds'] r']; [discriminate|].
  intros [= _ <-]; exact H.
Qed.

Lemma opt_sign_length (b : bool) (s : js_string) :
  (length (snd (opt_sign b s)) <= length s)%nat.
Proof.
  unfold opt_sign. destruct s as [|c r]; simpl; [lia|].
  destruct ((c =? 45) || b && (c =? 43)); simpl; lia.
Qed.

Lemma number_exp_length (l s : js_string) (v : json) (r : js_string) :
  number_exp l s = Some (v, r) -> (length r <= length s)%nat.
Proof.
  unfold number_exp. destruct s as [|c s]; [intros [= _ <-]; lia|].
  destruct ((c =? 101) || (c =? 69)); [|intros [= _ <-]; lia].
  pose proof (opt_sign_length true s) as Hs.
  destruct (opt_sign true s) as [sg r1]. simpl in Hs.
  destruct (digits1 r1) as [[ds r2]|] eqn:E; [|discriminate].
  cbn [bind]. intros [= _ <-]. apply digits1_length in E. simpl; lia.
Qed.

Lemma number_frac_length (l s : js_string) (v : json) (r : js_string) :
  number_frac l s = Some (v, r) -> (length r <= length s)%nat.
Proof.
  unfold number_frac. destruct s as [|c s]; [apply number_exp_length|].
  destruct (c =? 46); [|apply number_exp_length].
  destruct (digits1 s) as [[ds r']|] eqn:E; [|discriminate].
  cbn [bind]. intros H. apply number_exp_length in H.
  apply digits1_length in E. simpl; lia.
Qed.

Lemma parse_number_length (s : js_string) (v : json) (r : js_string) :
  parse_number s = Some (v, r) -> (length r < length s)%nat.
Proof.
  unfold parse_number. pose proof (opt_sign_length false s) as Hs.
  destruct (opt_sign false s) as [sg s1]. simpl in Hs.
  destruct s1 as [|c r0]; [discriminate|]. simpl in Hs.
  destruct (c =? 48).
  - intros H; apply number_frac_length in H. lia.
  - destruct (is_digit c); [|discriminate].
    pose proof (take_digits_length r0) as Hd.
    destruct (take_digits r0) as [ds r']. simpl in Hd.
    intros H; apply number_frac_length in H. lia.
Qed.

Lemma of_option_Ok {A : Type} (o : option A) (a : A) :
  of_option o = Ok a -> o = Some a.
Proof. destruct o; simpl; [intros [= ->]; reflexivity | discriminate]. Qed.

Lemma keyword_length (p : js_string) (j : json) (s : js_string)
      (v : json) (r : js_string) :
  keyword p j s = Ok (v, r) -> (length r <= length s)%nat.
Proof.
  unfold keyword. intros H; apply of_option_Ok in H.
  destruct (strip_prefix p s) as [r'|] eqn:E; [|discriminate].
  cbn [bind] in H. injection H as _ <-. eapply strip_prefix_length; exact E.
Qed.

Lemma map_outcome_Ok {A B : Type} (g : A -> B) (o : outcome A) (b : B) :
  map_outcome g o = Ok b -> exists a, o = Ok a /\ b = g a.
Proof.
  destruct o; simpl; try discriminate. intros [= <-]; eauto.
Qed.

(** Every successful parse consumes input. *)
Lemma parse_consumes (f : nat) :
  (forall s v r, parse_value f s = Ok (v, r) -> (length r < length s)%nat)
  /\ (forall s vs r,
        parse_elements f s = Ok (vs, r) -> (length r < length s)%nat)
  /\ (forall s ms r,
        parse_members f s = Ok (ms, r) -> (length r < length s)%nat).
Proof.
  induction f as [|f [IHv [IHe IHm]]]; [repeat split; discriminate|].
  repeat split.
  - intros s v r. cbn [parse_value].
    pose proof (skip_ws_length s) as Hs.
    destruct (skip_ws s) as [|c s']; [discriminate|]. simpl in Hs.
    destruct (c =? 34).
    { intros H; apply of_option_Ok in H.
      destruct (parse_string_body s') as [[str r']|] eqn:E; [|discriminate].
      cbn [bind fst snd] in H. injection H as _ <-.
      apply parse_string_body_length in E. lia. }
    destruct (c =? 91).
    { pose proof (skip_ws_length s') as Hs'.
      destruct (expect 93 (skip_ws s')) as [r'|] eqn:E.
      - intros [= _ <-]. apply expect_length in E. lia.
      - intros H; apply map_outcome_Ok in H.
        destruct H as [[vs r'] [H [= _ ->]]]. apply IHe in H. simpl; lia. }
    destruct (c =? 123).
    { pose proof (skip_ws_length s') as Hs'.
      destruct (expect 125 (skip_ws s')) as [r'|] eqn:E.
      - intros [= _ <-]. apply expect_length in E. lia.
      - intros H; apply map_outcome_Ok in H.
        destruct H as [[vs r'] [H [= _ ->]]]. apply IHm in H. simpl; lia. }
    destruct (c =? 110); [intros H; apply keyword_length in H; lia|].
    destruct (c =? 116); [intros H; apply keyword_length in H; lia|].
    destruct (c =? 102); [intros H; apply keyword_length in H; lia|].
    intros H; apply of_option_Ok, parse_number_length in H. simpl in H; lia.
  - intros s vs r. cbn [parse_elements].
    destruct (parse_value f s) as [[v r0]| |] eqn:Ev; try discriminate.
    apply IHv in Ev. pose proof (skip_ws_length r0) as Hs.
    destruct (skip_ws r0) as [|c r']; [discriminate|]. simpl in Hs.
    destruct (c =? 44).
    { intros H; apply map_outcome_Ok in H.
      destruct H as [[vs' r''] [H [= _ ->]]]. apply IHe in H. simpl; lia. }
    destruct (c =? 93); [|discriminate]. intros [= _ <-]. lia.
  - intros s ms r. cbn [parse_members].
    pose proof (skip_ws_length s) as Hs.
    destruct (expect 34 (skip_ws s)) as [r0|] eqn:E0; [|discriminate].
    apply expect_length in E0.
    destruct (parse_string_body r0) as [[k r1]|] eqn:E1; [|discriminate].
    apply parse_string_body_length in E1.
    pose proof (skip_ws_length r1) as Hs1.
    destruct (expect 58 (skip_ws r1)) as [r2|] eqn:E2; [|discriminate].
    apply expect_length in E2.
    destruct (parse_value f r2) as [[v r3]| |] eqn:Ev; try discriminate.
    apply IHv in Ev. pose proof (skip_ws_length r3) as Hs3.
    destruct (skip_ws r3) as [|c r4]; [discriminate|]. simpl in Hs3.
    destruct (c =? 44).
    { intros H; apply map_outcome_Ok in H.
      destruct H as [[ms' r5] [H [= _ ->]]]. apply IHm in H. simpl; lia. }
    destruct (c =? 125); [|discriminate]. intros [= _ <-]. lia.
Qed.

Lemma of_option_fuel {A : Type} (o : option A) : of_option o <> OutOfFuel.
Proof. destruct o; discriminate. Qed.

Lemma map_outcome_fuel {A B : Type} (g : A -> B) (o : outcome A) :
  o <> OutOfFuel -> map_outcome g o <> OutOfFuel.
Proof. destruct o; simpl; congruence. Qed.

(** Two units of fuel per code unit are enough at every level. *)
Lemma parse_has_fuel (f : nat) :
  (forall s, (2 * length s + 1 <= f)%nat -> parse_value f s <> OutOfFuel)
  /\ (forall s, (2 * length s + 2 <= f)%nat ->
                parse_elements f s <> OutOfFuel)
  /\ (forall s, (2 * length s + 2 <= f)%nat ->
                parse_members f s <> OutOfFuel).
Proof.
  induction f as [|f [IHv [IHe IHm]]]; [repeat split; intros s H; lia|].
  destruct (parse_consumes f) as [Cv _].
  repeat split.
  - intros s Hf. cbn [parse_value].
    pose proof (skip_ws_length s) as Hs.
    destruct (skip_ws s) as [|c s']; [discriminate|]. simpl in Hs.
    destruct (c =? 34); [apply of_option_fuel|].
    destruct (c =? 91).
    { destruct (expect 93 (skip_ws s')); [discriminate|].
      apply map_outcome_fuel, IHe. lia. }
    destruct (c =? 123).
    { destruct (expect 125 (skip_ws s')); [discriminate|].
      apply map_outcome_fuel, IHm. lia. }
    unfold keyword.
    repeat match goal with
           | |- context [if ?b then _ else _] => destruct b
           end; apply of_option_fuel.
  - intros s Hf. cbn [parse_elements].
    pose proof (IHv s ltac:(lia)) as Hv.
    destruct (parse_value f s) as [[v r0]| |] eqn:Ev;
      [|discriminate|contradiction].
    apply Cv in Ev. pose proof (skip_ws_length r0) as Hs.
    destruct (skip_ws r0) as [|c r']; [discriminate|]. simpl in Hs.
    destruct (c =? 44); [apply map_outcome_fuel, IHe; lia|].
    destruct (c =? 93); discriminate.
  - intros s Hf. cbn [parse_members].
    pose proof (skip_ws_length s) as Hs.
    destruct (expect 34 (skip_ws s)) as [r0|] eqn:E0; [|discriminate].
    apply expect_length in E0.
    destruct (parse_string_body r0) as [[k r1]|] eqn:E1; [|discriminate].
    apply parse_string_body_length in E1.
    pose proof (skip_ws_length r1) as Hs1.
    destruct (expect 58 (skip_ws r1)) as [r2|] eqn:E2; [|discriminate].
    apply expect_length in E2.
    pose proof (IHv r2 ltac:(lia)) as Hv.
    destruct (parse_value f r2) as [[v r3]| |] eqn:Ev;
      [|discriminate|contradiction].
    apply Cv in Ev. pose proof (skip_ws_length r3) as Hs3.
    destruct (skip_ws r3) as [|c r4]; [discriminate|]. simpl in Hs3.
    destruct (c =? 44); [apply map_outcome_fuel, IHm; lia|].
    destruct (c =? 125); discriminate.
Qed.

(** [JSON.parse] fails only on a syntax error of its text. *)
Lemma parse_text_fuel (s : js_string) :
  parse_text (fuel_for s) s <> OutOfFuel.
Proof.
  unfold parse_text, fuel_for.
  pose proof (proj1 (parse_has_fuel (2 * length s + 2)) s ltac:(lia)) as H.
  destruct (parse_value (2 * length s + 2) s) as [[v r]| |];
    [|discriminate|contradiction].
  destruct (skip_ws r); discriminate.
Qed.

Lemma parse_None_iff (s : js_string) :
  JSON.parse s = None <-> parse_text (fuel_for s) s = SyntaxError.
Proof.
  unfold JSON.parse. pose proof (parse_text_fuel s) as H.
  destruct (parse_text (fuel_for s) s); split; congruence.
Qed.

(** ** Saving and loading *)

(** C7, as stated, fails: a task whose [createdAt] is an invalid date is
    written with [null] for it and comes back dated at the epoch. *)
Lemma invalid_date_not_restored :
  ~ (forall (E : Engine) (ts : list Task),
       Forall (fun t => code_units (id t) /\ code_units (text t)) ts ->
       result (load E (Some (JSON.stringify ts))) = SetTasks ts).
Proof.
  intros H.
  specialize (H (mkEngine (fun _ => InvalidDate) (fun _ => None))
                [ {| id := lit "1"; text := lit "a"; completed := false;
                     createdAt := InvalidDate |} ]).
  assert (Hwf : Forall (fun t => code_units (id t) /\ code_units (text t))
                  [ {| id := lit "1"; text := lit "a"; completed := false;
                       createdAt := InvalidDate |} ]).
  { repeat constructor; simpl; lia. }
  specialize (H Hwf). vm_compute in H. discriminate H.
Qed.

Section Loading.

Variable E : Engine.

Lemma TimeClip_valid (t : Z) : valid_time t -> TimeClip t = TimeValue t.
Proof.
  unfold valid_time, TimeClip. intros H.
  destruct (Z.leb_spec (Z.abs t) maxTime); [reflexivity | lia].
Qed.

Lemma revive_Task_json (task : Task) :
  valid_Date (createdAt task) -> revive E (Task_json task) = ATask task.
Proof.
  destruct task as [i t c [|tv]]; simpl; [contradiction|]. intros Hv.
  unfold revive, Task_json. cbn [get_createdAt createdAt Date_json].
  change (get (lit "createdAt") _) with (Some (JStr (toISOString tv))).
  cbn [new_Date]. unfold Date_parse.
  rewrite parse_iso_utc_toISOString by exact Hv.
  rewrite TimeClip_valid by exact Hv.
  reflexivity.
Qed.

Lemma revive_all_Task_json (ts : list Task) :
  Forall (fun t => valid_Date (createdAt t)) ts ->
  revive_all E (List.map Task_json ts) = Some (SetTasks ts).
Proof.
  induction 1 as [|task ts Hv _ IH]; [reflexivity|].
  cbn [List.map revive_all].
  rewrite revive_Task_json by exact Hv. rewrite IH. reflexivity.
Qed.

Lemma load_nonempty (s : js_string) :
  s <> [] ->
  load E (Some s) =
  match JSON.parse s with
  | None => mkMounted Kept [parse_error ASyntaxError]
  | Some (JArr l) =>
      match revive_all E l with
      | None => mkMounted Kept [parse_error ATypeError]
      | Some r => mkMounted r []
      end
  | Some _ => mkMounted Kept [parse_error ATypeError]
  end.
Proof. destruct s; [congruence | reflexivity]. Qed.

(** Reading the text written for storable tasks sets those tasks. *)
Lemma load_stringify (ts : list Task) :
  Forall storable ts ->
  load E (Some (JSON.stringify ts))
  = {| result := SetTasks ts; console := [] |}.
Proof.
  intros Hs.
  rewrite load_nonempty by (unfold JSON.stringify; discriminate).
  rewrite parse_stringify.
  - rewrite revive_all_Task_json; [reflexivity|].
    eapply Forall_impl; [|exact Hs]. intros t [_ [_ H]]; exact H.
  - eapply Forall_impl; [|exact Hs]. intros t [H1 [H2 _]]; split; assumption.
Qed.

(** C7, amended: for every task sequence whose timestamps are valid
    dates (and whose strings are code units), loading what the save
    effect stored sets the very same sequence, ids, texts, completion
    flags and timestamps to the millisecond, and logs nothing. *)
Theorem save_load_roundtrip (st : State) :
  Forall storable (tasks st) ->
  load E (Some (save st))
  = {| result := SetTasks (tasks st); console := [] |}.
Proof.
  intros Hs. unfold save. apply load_stringify; exact Hs.
Qed.

(** C8: the load effect always ends with a value for the [tasks] cell
    and nothing thrown.  With no stored item the list stays empty (a
    total of 0) and nothing is logged; the empty string is not parsed
    and does the same; when [JSON.parse] fails on the stored text the
    list stays empty and the failure is logged once on the console; and
    whenever the effect logs anything, the list stays empty. *)
Theorem load_never_faults :
  load E None = {| result := Kept; console := [] |}
  /\ load E (Some []) = {| result := Kept; console := [] |}
  /\ (exists st, mount E None = Some st /\ tasks st = [] /\ totalTasks st = 0)
  /\ (forall s, s <> [] -> JSON.parse s = None ->
        load E (Some s)
        = {| result := Kept; console := [parse_error ASyntaxError] |}
        /\ exists st, mount E (Some s) = Some st
                      /\ tasks st = [] /\ totalTasks st = 0)
  /\ (forall saved, console (load E saved) <> [] ->
        result (load E saved) = Kept
        /\ tasks_after (load E saved) = Some []).
Proof.
  split; [reflexivity|]. split; [reflexivity|].
  split; [exists initial; repeat split|].
  split.
  - intros s Hs Hp. rewrite load_nonempty by exact Hs.
    unfold mount. rewrite load_nonempty by exact Hs. rewrite Hp.
    split; [reflexivity|]. exists initial; repeat split.
  - intros [s|]; [|simpl; congruence].
    destruct s as [|c s]; [simpl; congruence|].
    rewrite load_nonempty by discriminate.
    destruct (JSON.parse (c :: s)) as [[| | | |l|]|]; simpl; auto.
    destruct (revive_all E l); simpl; auto. congruence.
Qed.

End Loading.

(** The round trip on a store built by two submits and a toggle. *)
Lemma save_load_roundtrip_witness :
  let E := mkEngine (fun _ => InvalidDate) (fun _ => None) in
  let st := run initial [Type_ (lit "  buy milk  ");
                         Submit 1700000000000 1700000000001;
                         Type_ (lit "B"); Submit 1700000000500 1700000000500;
                         Toggle (lit "1700000000000")] in
  load E (Some (save st)) = {| result := SetTasks (tasks st); console := [] |}.
Proof.
  intros E st. apply (save_load_roundtrip E st).
  repeat constructor; simpl; unfold maxTime; lia.
Defined.

(** A stored text on which [JSON.parse] fails. *)
Lemma load_never_faults_witness :
  let E := mkEngine (fun _ => InvalidDate) (fun _ => None) in
  load E (Some (lit "{not json"))
  = {| result := Kept; console := [parse_error ASyntaxError] |}.
Proof.
  intros E.
  refine (proj1 (proj1 (proj2 (proj2 (proj2 (load_never_faults E))))
                       (lit "{not json") _ _)).
  - discriminate.
  - vm_compute; reflexivity.
Defined.

(** *** Stores the component builds itself *)

Lemma code_units_lit (s : string) : code_units (lit s).
Proof.
  unfold lit, code_units. apply Forall_forall. intros c Hc.
  apply in_map_iff in Hc. destruct Hc as [a [<- _]].
  pose proof (N_ascii_bounded a). lia.
Qed.

Lemma code_units_trimStart (s : js_string) :
  code_units s -> code_units (trimStart s).
Proof.
  induction 1 as [|c s Hc Hs IH]; simpl; [constructor|].
  destruct (is_white_space c); [exact IH | constructor; assumption].
Qed.

Lemma code_units_trim (s : js_string) : code_units s -> code_units (trim s).
Proof.
  intros H. unfold trim, trimEnd, code_units.
  apply Forall_rev, code_units_trimStart, Forall_rev, code_units_trimStart.
  exact H.
Qed.

Lemma step_storable (st : State) (a : Action) :
  well_typed a ->
  code_units (newTask st) /\ Forall storable (tasks st) ->
  code_units (newTask (step st a)) /\ Forall storable (tasks (step st a)).
Proof.
  intros Ha [Hn Hs]. unfold step.
  destruct (enabled a st); [|split; assumption].
  destruct a as [s|now created|i|i| |f| ]; simpl handle;
    try (split; assumption).
  - unfold addTask. destruct (str_eqb (trim (newTask st)) []);
      [split; assumption|].
    split; [constructor|]. simpl tasks.
    apply Forall_app; split; [exact Hs|].
    constructor; [|constructor].
    split; [apply code_units_lit|].
    split; [apply code_units_trim; exact Hn | exact Ha].
  - split; [exact Hn|]. simpl tasks. apply Forall_forall.
    intros task Ht. apply in_map_iff in Ht. destruct Ht as [u [<- Hu]].
    rewrite Forall_forall in Hs. specialize (Hs u Hu).
    unfold toggle_one. destruct (str_eqb (id u) i); exact Hs.
  - split; [exact Hn|]. simpl tasks. apply Forall_forall.
    intros task Ht. apply filter_In in Ht.
    rewrite Forall_forall in Hs. apply Hs, Ht.
Qed.

Lemma run_storable (l : list Action) :
  forall st,
    Forall well_typed l ->
    code_units (newTask st) /\ Forall storable (tasks st) ->
    Forall storable (tasks (run st l)).
Proof.
  induction l as [|a l IH]; intros st Hl Hst; [apply Hst|].
  inversion Hl; subst. simpl. apply IH; [assumption|].
  apply step_storable; assumption.
Qed.

(** Every store of a session that starts empty is read back as it was
    saved. *)
Lemma session_roundtrip (E : Engine) (l : list Action) :
  Forall well_typed l ->
  load E (Some (save (run initial l)))
  = {| result := SetTasks (tasks (run initial l)); console := [] |}.
Proof.
  intros Hl. unfold save. apply load_stringify.
  apply run_storable; [exact Hl|]. split; constructor.
Qed.

(** * Further properties of the handlers *)

(** ** How the handlers compose *)

Lemma toggle_one_twice (i : js_string) (task : Task) :
  toggle_one i (toggle_one i task) = task.
Proof.
  unfold toggle_one. destruct (str_eqb (id task) i) eqn:E; simpl.
  - rewrite E, negb_involutive. destruct task; reflexivity.
  - rewrite E. reflexivity.
Qed.

Lemma setTasks_same (st : State) : setTasks (tasks st) st = st.
Proof. destruct st; reflexivity. Qed.

(** X9: toggling the same id twice gives back the state, whatever the
    store holds, also when the id is shared or absent. *)
Theorem toggle_twice (st : State) (i : js_string) :
  toggleTaskCompletion i (toggleTaskCompletion i st) = st.
Proof.
  unfold toggleTaskCompletion. simpl. unfold setTasks; simpl.
  rewrite map_map.
  rewrite (map_ext _ (fun t => t)) by (intros t; apply toggle_one_twice).
  rewrite map_id. destruct st; reflexivity.
Qed.

Lemma filter_twice {A : Type} (f : A -> bool) (l : list A) :
  List.filter f (List.filter f l) = List.filter f l.
Proof.
  induction l as [|x l IH]; simpl; [reflexivity|].
  destruct (f x) eqn:E; simpl; [rewrite E, IH|]; auto.
Qed.

Lemma filter_swap {A : Type} (f g : A -> bool) (l : list A) :
  List.filter f (List.filter g l) = List.filter g (List.filter f l).
Proof.
  induction l as [|x l IH]; simpl; [reflexivity|].
  destruct (f x) eqn:Ef, (g x) eqn:Eg; simpl; rewrite ?Ef, ?Eg, IH; auto.
Qed.

Lemma id_toggle_one (i : js_string) (task : Task) :
  id (toggle_one i task) = id task.
Proof. unfold toggle_one; destruct (str_eqb (id task) i); reflexivity. Qed.

Lemma filter_map_toggle (i j : js_string) (l : list Task) :
  List.filter (fun task => negb (str_eqb (id task) j))
              (List.map (toggle_one i) l)
  = List.map (toggle_one i)
             (List.filter (fun task => negb (str_eqb (id task) j)) l).
Proof.
  induction l as [|x l IH]; simpl; [reflexivity|].
  rewrite id_toggle_one.
  destruct (negb (str_eqb (id x) j)); simpl; rewrite IH; reflexivity.
Qed.

(** X10: once an id is deleted no stored task has it, so deleting it again
    or toggling it changes nothing. *)
Theorem delete_then_same_id (st : State) (i : js_string) :
  deleteTask i (deleteTask i st) = deleteTask i st
  /\ toggleTaskCompletion i (deleteTask i st) = deleteTask i st
  /\ ~ In i (ids (tasks (deleteTask i st))).
Proof.
  assert (Hnone : forall task,
             In task (tasks (deleteTask i st)) -> id task <> i).
  { intros task H. simpl in H. apply filter_In in H. destruct H as [_ H].
    apply negb_true_iff, str_eqb_neq in H. exact H. }
  split; [|split].
  - unfold deleteTask; simpl. unfold setTasks; simpl.
    rewrite filter_twice. reflexivity.
  - unfold toggleTaskCompletion.
    rewrite map_toggle_others by exact Hnone. apply setTasks_same.
  - unfold ids. rewrite in_map_iff. intros [task [Hid Hin]].
    exact (Hnone task Hin Hid).
Qed.

(** X11: toggles and deletes can be done in either order: two toggles, two
    deletes, and a toggle with a delete, on equal or different ids. *)
Theorem handlers_commute (st : State) (i j : js_string) :
  toggleTaskCompletion i (toggleTaskCompletion j st)
  = toggleTaskCompletion j (toggleTaskCompletion i st)
  /\ deleteTask i (deleteTask j st) = deleteTask j (deleteTask i st)
  /\ toggleTaskCompletion i (deleteTask j st)
     = deleteTask j (toggleTaskCompletion i st).
Proof.
  unfold toggleTaskCompletion, deleteTask, setTasks; simpl.
  split; [|split]; f_equal.
  - rewrite !map_map. apply map_ext. intros t.
    unfold toggle_one.
    destruct (str_eqb (id t) i) eqn:Ei, (str_eqb (id t) j) eqn:Ej; simpl;
      rewrite ?Ei, ?Ej; reflexivity.
  - apply filter_swap.
  - symmetry. apply filter_map_toggle.
Qed.

(** X8: a second submit right after a first one adds nothing: the first
    either was ignored, and so is the second, or it emptied the input. *)
Theorem submit_twice (st : State) (now created now' created' : Z) :
  addTask now' created' (addTask now created st) = addTask now created st.
Proof.
  destruct (str_eqb (trim (newTask st)) []) eqn:E.
  - apply str_eqb_nil in E.
    rewrite (addTask_blank now created st E). apply addTask_blank; exact E.
  - apply str_eqb_neq in E. apply addTask_blank.
    rewrite addTask_nonblank by exact E. reflexivity.
Qed.

(** ** What [addTask] stores *)

Lemma trimStart_split (s : js_string) :
  exists l, s = l ++ trimStart s /\ forallb is_white_space l = true.
Proof.
  induction s as [|c s [l [Hs Hl]]]; [exists []; auto|].
  simpl. destruct (is_white_space c) eqn:Hc.
  - exists (c :: l). simpl. rewrite Hc, Hl. split; [f_equal; exact Hs | auto].
  - exists []. auto.
Qed.

Lemma trimEnd_split (s : js_string) :
  exists r, s = trimEnd s ++ r /\ forallb is_white_space r = true.
Proof.
  destruct (trimStart_split (rev s)) as [l [Hs Hl]].
  exists (rev l). split.
  - unfold trimEnd. rewrite <- rev_app_distr, <- Hs, rev_involutive.
    reflexivity.
  - rewrite forallb_rev. exact Hl.
Qed.

Lemma trim_ends (s : js_string) :
  trim s <> [] ->
  (exists c m, trim s = c :: m /\ is_white_space c = false)
  /\ (exists m c, trim s = m ++ [c] /\ is_white_space c = false).
Proof.
  intros Hne. split.
  - unfold trim in *. destruct (trimStart s) as [|c r] eqn:Hs;
      [contradiction Hne; reflexivity|].
    pose proof (trimStart_head _ _ _ Hs) as Hc.
    rewrite trimEnd_cons by exact Hc. eauto.
  - unfold trim, trimEnd in *.
    destruct (trimStart (rev (trimStart s))) as [|c m] eqn:Hr;
      [contradiction Hne; reflexivity|].
    exists (rev m), c. split; [reflexivity|].
    eapply trimStart_head; exact Hr.
Qed.

(** X7: the text [addTask] stores is the typed text without the white space
    around it: the typed text is white space, then the stored text,
    then white space, and the stored text begins and ends with a code
    unit that is not white space.  White space inside it is kept. *)
Theorem addTask_strips_around (st : State) (now created : Z) :
  trim (newTask st) <> [] ->
  exists task l r,
    tasks (addTask now created st) = tasks st ++ [task]
    /\ newTask st = l ++ text task ++ r
    /\ forallb is_white_space l = true
    /\ forallb is_white_space r = true
    /\ (exists c m, text task = c :: m /\ is_white_space c = false)
    /\ (exists m c, text task = m ++ [c] /\ is_white_space c = false).
Proof.
  intros Hne. rewrite addTask_nonblank by exact Hne.
  destruct (trimStart_split (newTask st)) as [l [Hl Hlw]].
  destruct (trimEnd_split (trimStart (newTask st))) as [r [Hr Hrw]].
  destruct (trim_ends _ Hne) as [Hfirst Hlast].
  eexists _, l, r. split; [reflexivity|]. simpl text.
  split; [|auto].
  unfold trim. rewrite <- Hr. exact Hl.
Qed.

Lemma addTask_strips_around_witness :
  exists task l r,
    tasks (addTask 7 7 (setNewTask (lit "  buy milk  ") initial)) = [task]
    /\ lit "  buy milk  " = l ++ text task ++ r
    /\ forallb is_white_space l = true
    /\ forallb is_white_space r = true.
Proof.
  destruct (addTask_strips_around
              (setNewTask (lit "  buy milk  ") initial) 7 7)
    as [task [l [r [H1 [H2 [H3 [H4 _]]]]]]].
  - vm_compute. discriminate.
  - exists task, l, r. auto.
Defined.

(** ** The counts after each handler *)

Lemma completedTasks_app (st : State) (l1 l2 : list Task) :
  tasks st = l1 ++ l2 ->
  completedTasks st
  = Z.of_nat (length (List.filter (fun t => completed t) l1))
    + Z.of_nat (length (List.filter (fun t => completed t) l2)).
Proof.
  intros H. unfold completedTasks. rewrite H, filter_app, length_app. lia.
Qed.

(** X12: a submit that is not blank raises the total and the active count by
    one and leaves the completed count; a blank one leaves all three. *)
Theorem counts_after_add (st : State) (now created : Z) :
  (trim (newTask st) <> [] ->
     totalTasks (addTask now created st) = totalTasks st + 1
     /\ activeTasks (addTask now created st) = activeTasks st + 1
     /\ completedTasks (addTask now created st) = completedTasks st)
  /\ (trim (newTask st) = [] ->
     totalTasks (addTask now created st) = totalTasks st
     /\ activeTasks (addTask now created st) = activeTasks st
     /\ completedTasks (addTask now created st) = completedTasks st).
Proof.
  split; intros H.
  - rewrite addTask_nonblank by exact H.
    unfold activeTasks, totalTasks, completedTasks. simpl tasks.
    rewrite filter_app, !length_app. simpl. lia.
  - rewrite addTask_blank by exact H. auto.
Qed.

Lemma counts_after_add_witness :
  totalTasks (addTask 7 7 (setNewTask (lit "A") initial)) = 1
  /\ activeTasks (addTask 7 7 (setNewTask (lit "A") initial)) = 1.
Proof.
  destruct (proj1 (counts_after_add (setNewTask (lit "A") initial) 7 7))
    as [H1 [H2 _]].
  - vm_compute. discriminate.
  - split; [exact H1 | exact H2].
Defined.

Lemma filter_other_ids (i : js_string) (l : list Task) :
  (forall u, In u l -> id u <> i) ->
  List.filter (fun task => negb (str_eqb (id task) i)) l = l.
Proof.
  intros H. apply filter_all_true. intros u Hu.
  apply negb_true_iff, str_eqb_neq. auto.
Qed.

Lemma split_unique (ts : list Task) (task : Task) :
  NoDup (ids ts) -> In task ts ->
  exists l1 l2, ts = l1 ++ task :: l2
                /\ forall u, In u (l1 ++ l2) -> id u <> id task.
Proof.
  intros Hnd Hin. destruct (in_split _ _ Hin) as [l1 [l2 ->]].
  exists l1, l2. split; [reflexivity|].
  apply unique_id_others; exact Hnd.
Qed.

(** X13: with pairwise distinct ids, toggling a stored task keeps the total
    and moves one unit between the active and the completed count, and
    deleting it lowers the total and its own count by one. *)
Theorem counts_after_toggle_delete (st : State) (task : Task) :
  NoDup (ids (tasks st)) -> In task (tasks st) ->
  let b := if completed task then 1 else 0 in
  totalTasks (toggleTaskCompletion (id task) st) = totalTasks st
  /\ completedTasks (toggleTaskCompletion (id task) st)
     = completedTasks st + 1 - 2 * b
  /\ activeTasks (toggleTaskCompletion (id task) st)
     = activeTasks st - 1 + 2 * b
  /\ totalTasks (deleteTask (id task) st) = totalTasks st - 1
  /\ completedTasks (deleteTask (id task) st) = completedTasks st - b
  /\ activeTasks (deleteTask (id task) st) = activeTasks st - (1 - b).
Proof.
  intros Hnd Hin b.
  destruct (split_unique _ _ Hnd Hin) as [l1 [l2 [Hts Hothers]]].
  assert (H1 : forall u, In u l1 -> id u <> id task)
    by (intros u Hu; apply Hothers, in_or_app; auto).
  assert (H2 : forall u, In u l2 -> id u <> id task)
    by (intros u Hu; apply Hothers, in_or_app; auto).
  assert (Ht : tasks (toggleTaskCompletion (id task) st)
               = l1 ++ flipped task :: l2).
  { simpl. rewrite Hts, map_app. simpl.
    rewrite toggle_one_match by reflexivity.
    rewrite !map_toggle_others by assumption. reflexivity. }
  assert (Hd : tasks (deleteTask (id task) st) = l1 ++ l2).
  { simpl. rewrite Hts, filter_app. simpl.
    rewrite str_eqb_refl. simpl.
    rewrite !filter_other_ids by assumption. reflexivity. }
  unfold activeTasks, totalTasks.
  rewrite (completedTasks_app _ _ _ Ht), (completedTasks_app _ _ _ Hd),
    (completedTasks_app _ _ _ Hts), Ht, Hd, Hts.
  rewrite !length_app. simpl. subst b.
  destruct (completed task); simpl; repeat split; lia.
Qed.

Lemma counts_after_toggle_delete_witness :
  let a := {| id := lit "1"; text := lit "A"; completed := false;
              createdAt := TimeValue 1 |} in
  let st := setTasks [a] initial in
  completedTasks (toggleTaskCompletion (lit "1") st) = 1
  /\ totalTasks (deleteTask (lit "1") st) = 0.
Proof.
  intros a st.
  destruct (counts_after_toggle_delete st a) as [_ [H1 [_ [H2 _]]]].
  - repeat constructor. intros [].
  - left; reflexivity.
  - split; [exact H1 | exact H2].
Defined.

(** ** The rendered rows and the empty state *)

Lemma filter_nil_iff {A : Type} (f : A -> bool) (l : list A) :
  List.filter f l = [] <-> forall x, In x l -> f x = false.
Proof.
  induction l as [|x l IH]; simpl; [tauto|].
  destruct (f x) eqn:E.
  - split; [discriminate|]. intros H. specialize (H x (or_introl eq_refl)).
    congruence.
  - rewrite IH. split.
    + intros H y [<-|Hy]; auto.
    + intros H y Hy; auto.
Qed.

(** X14: "Show all tasks" is rendered exactly when the mode is [active] and
    every stored task is completed, or the mode is [completed] and none
    is (an empty store under either mode included).  Clicking it shows
    the whole store, changes no task, and the button is gone. *)
Theorem show_all_button (st : State) :
  (enabled ShowAll st = true <->
     (filter st = active /\ forall task, In task (tasks st) ->
                                          completed task = true)
     \/ (filter st = completed_ /\ forall task, In task (tasks st) ->
                                                 completed task = false))
  /\ (enabled ShowAll st = true ->
        filteredTasks (step st ShowAll) = tasks st
        /\ tasks (step st ShowAll) = tasks st
        /\ enabled ShowAll (step st ShowAll) = false).
Proof.
  split.
  - simpl. unfold showAll_rendered, filteredTasks.
    destruct (List.filter (visible (filter st)) (tasks st)) as [|x l] eqn:E.
    + rewrite filter_nil_iff in E.
      destruct (filter st) eqn:F; simpl in *.
      * split; [discriminate|]. intros [[H _]|[H _]]; discriminate.
      * split; [|reflexivity]. intros _. left. split; [reflexivity|].
        intros task Ht. apply E in Ht. apply negb_false_iff in Ht; exact Ht.
      * split; [|reflexivity]. intros _. right. split; [reflexivity|].
        intros task Ht. apply E in Ht; exact Ht.
    + split; [discriminate|].
      assert (Hx : In x (List.filter (visible (filter st)) (tasks st)))
        by (rewrite E; left; reflexivity).
      apply filter_In in Hx. destruct Hx as [Hin Hv].
      intros [[F H]|[F H]]; rewrite F in Hv; simpl in Hv;
        specialize (H x Hin); rewrite H in Hv; discriminate.
  - intros H. unfold step. rewrite H. simpl.
    unfold filteredTasks, showAll_rendered, filteredTasks. simpl.
    rewrite filter_all_true by reflexivity.
    repeat split. destruct (tasks st); reflexivity.
Qed.

Lemma show_all_button_witness :
  let st := setFilter active initial in
  filteredTasks (step st ShowAll) = tasks st
  /\ enabled ShowAll (step st ShowAll) = false.
Proof.
  intros st.
  destruct (proj2 (show_all_button st)) as [H1 [_ H2]].
  - reflexivity.
  - split; [exact H1 | exact H2].
Defined.

Lemma row_ids_stored (st : State) (i : js_string) :
  In i (row_ids st) ->
  exists task, In task (tasks st) /\ id task = i
               /\ visible (filter st) task = true.
Proof.
  unfold row_ids, ids, filteredTasks. rewrite in_map_iff.
  intros [task [Hid Hin]]. apply filter_In in Hin.
  exists task. tauto.
Qed.

Lemma filter_length_lt {A : Type} (f : A -> bool) (l : list A) (x : A) :
  In x l -> f x = false -> (length (List.filter f l) < length l)%nat.
Proof.
  intros Hin Hf.
  pose proof (length_filter_split f l) as H.
  assert (Hx : In x (List.filter (fun y => negb (f y)) l)).
  { apply filter_In. split; [exact Hin|]. rewrite Hf; reflexivity. }
  destruct (List.filter (fun y => negb (f y)) l); [destruct Hx|].
  simpl in H. lia.
Qed.

(** X15: the delete button of a rendered row always removes something: the
    total goes down, and the id is in no row afterwards. *)
Theorem row_delete_removes (st : State) (i : js_string) :
  In i (row_ids st) ->
  totalTasks (deleteTask i st) < totalTasks st
  /\ ~ In i (row_ids (deleteTask i st)).
Proof.
  intros Hi. destruct (row_ids_stored st i Hi) as [task [Hin [Hid _]]].
  split.
  - unfold totalTasks. simpl. apply inj_lt.
    apply (filter_length_lt _ _ task Hin).
    rewrite Hid, str_eqb_refl. reflexivity.
  - intros H. apply row_ids_stored in H.
    destruct H as [u [Hu [Hiu _]]]. simpl in Hu. apply filter_In in Hu.
    destruct Hu as [_ Hu]. rewrite Hiu, str_eqb_refl in Hu. discriminate.
Qed.

Lemma row_delete_removes_witness :
  let a := {| id := lit "1"; text := lit "A"; completed := false;
              createdAt := TimeValue 1 |} in
  totalTasks (deleteTask (lit "1") (setTasks [a] initial))
  < totalTasks (setTasks [a] initial).
Proof.
  intros a.
  apply (proj1 (row_delete_removes (setTasks [a] initial) (lit "1")
                  (or_introl eq_refl))).
Defined.

Lemma unique_by_id (ts : list Task) (u v : Task) :
  NoDup (ids ts) -> In u ts -> In v ts -> id u = id v -> u = v.
Proof.
  induction ts as [|x ts IH]; intros Hnd Hu Hv Heq; [destruct Hu|].
  simpl in Hnd. inversion Hnd as [|? ? Hx Hts]; subst.
  destruct Hu as [<-|Hu], Hv as [<-|Hv]; auto.
  - exfalso. apply Hx. rewrite Heq. apply in_map; exact Hv.
  - exfalso. apply Hx. rewrite <- Heq. apply in_map; exact Hu.
Qed.

(** X16: under the mode [active] or [completed], with pairwise distinct ids,
    the toggle button of a rendered row takes that row out of view. *)
Theorem row_toggle_leaves_view (st : State) (i : js_string) :
  NoDup (ids (tasks st)) -> filter st <> all ->
  In i (row_ids st) ->
  ~ In i (row_ids (toggleTaskCompletion i st)).
Proof.
  intros Hnd Hf Hi H.
  destruct (row_ids_stored st i Hi) as [v [Hv [Hiv Hvis]]].
  apply row_ids_stored in H. destruct H as [t' [Ht' [Hit' Hvis']]].
  simpl in Ht'. apply in_map_iff in Ht'. destruct Ht' as [u [<- Hu]].
  rewrite id_toggle_one in Hit'.
  assert (u = v) by (apply (unique_by_id (tasks st)); congruence).
  subst u. simpl in Hvis'.
  rewrite toggle_one_match in Hvis' by exact Hiv.
  destruct (filter st); [congruence| |]; simpl in *;
    destruct (completed v); discriminate.
Qed.

Lemma row_toggle_leaves_view_witness :
  let a := {| id := lit "1"; text := lit "A"; completed := false;
              createdAt := TimeValue 1 |} in
  let st := setFilter active (setTasks [a] initial) in
  ~ In (lit "1") (row_ids (toggleTaskCompletion (lit "1") st)).
Proof.
  intros a st. apply (row_toggle_leaves_view st (lit "1")).
  - repeat constructor. intros [].
  - discriminate.
  - left; reflexivity.
Defined.

(** ** What no handler changes *)





(** * The effects in the browser *)

Lemma ui_session (l : list Action) :
  forall w, ui (session w l) = run (ui w) l.
Proof.
  induction l as [|a l IH]; intros w; [reflexivity|].
  simpl. rewrite IH. f_equal. unfold act.
  destruct (calls_setTasks a (ui w)); reflexivity.
Qed.

Lemma step_without_setTasks (st : State) (a : Action) :
  calls_setTasks a st = false -> tasks (step st a) = tasks st.
Proof.
  intros H. unfold step. destruct (enabled a st); [|reflexivity].
  destruct a; simpl in *; try reflexivity; try discriminate.
  unfold addTask. apply negb_false_iff in H. rewrite H. reflexivity.
Qed.

Lemma act_keeps_written (w : Browser) (a : Action) :
  localStorage w = Some (save (ui w)) ->
  localStorage (act w a) = Some (save (ui (act w a))).
Proof.
  intros H. unfold act.
  destruct (calls_setTasks a (ui w)) eqn:E; simpl; [reflexivity|].
  rewrite H. unfold save. rewrite step_without_setTasks by exact E.
  reflexivity.
Qed.

Lemma boot_written (E : Engine) (stored : option js_string) (w : Browser) :
  boot E stored = Some w -> localStorage w = Some (save (ui w)).
Proof.
  unfold boot. destruct (result (load E stored));
    intros [= <-]; reflexivity || discriminate.
Qed.

Lemma session_keeps_written (l : list Action) :
  forall w,
    localStorage w = Some (save (ui w)) ->
    localStorage (session w l) = Some (save (ui (session w l))).
Proof.
  induction l as [|a l IH]; intros w Hw; [exact Hw|].
  simpl. apply IH. apply act_keeps_written; exact Hw.
Qed.



Lemma load_logs_only_kept (E : Engine) (stored : option js_string) :
  console (load E stored) <> [] -> result (load E stored) = Kept.
Proof.
  destruct stored as [[|c s]|]; simpl; try congruence.
  destruct (JSON.parse (c :: s)) as [[| | | |l|]|]; simpl; auto.
  destruct (revive_all E l); simpl; auto. congruence.
Qed.

(** X3: a stored item the load effect cannot read is lost at once: when the
    effect logs an error, the component starts with no task and the
    item is overwritten with the text of the empty list, before any
    user action. *)
Theorem unreadable_item_overwritten (E : Engine) (stored : option js_string) :
  console (load E stored) <> [] ->
  boot E stored
  = Some {| ui := initial;
            localStorage := Some (lit "[]");
            setItem_calls := [lit "[]"];
            errors := console (load E stored) |}.
Proof.
  intros H. unfold boot. rewrite (load_logs_only_kept E stored H). reflexivity.
Qed.

Lemma unreadable_item_overwritten_witness :
  let E := mkEngine (fun _ => InvalidDate) (fun _ => None) in
  exists w, boot E (Some (lit "17")) = Some w
            /\ localStorage w = Some (lit "[]")
            /\ tasks (ui w) = [].
Proof.
  intros E. eexists. split.
  - apply (unreadable_item_overwritten E (Some (lit "17"))).
    vm_compute. discriminate.
  - split; reflexivity.
Defined.

Lemma boot_newTask (E : Engine) (stored : option js_string) (w : Browser) :
  boot E stored = Some w -> newTask (ui w) = [].
Proof.
  unfold boot. destruct (result (load E stored));
    intros [= <-]; reflexivity || discriminate.
Qed.

(** X2: reloading the page restores the task list and nothing else: after a
    session of well-typed actions on storable tasks, mounting again from
    the stored item gives the same tasks, ids, texts, flags and dates,
    with the input empty, the mode [all] and the menu closed, and logs
    nothing. *)
Theorem reload_restores_tasks (E : Engine) (stored : option js_string)
        (w : Browser) (l : list Action) :
  boot E stored = Some w ->
  Forall storable (tasks (ui w)) ->
  Forall well_typed l ->
  exists w',
    boot E (localStorage (session w l)) = Some w'
    /\ ui w' = setTasks (tasks (ui (session w l))) initial
    /\ errors w' = [].
Proof.
  intros Hb Hs Hl.
  rewrite (session_keeps_written l w (boot_written E stored w Hb)).
  unfold save.
  assert (Hst : Forall storable (tasks (ui (session w l)))).
  { rewrite ui_session. apply run_storable; [exact Hl|].
    split; [|exact Hs]. rewrite (boot_newTask E stored w Hb). constructor. }
  unfold boot. rewrite (load_stringify E _ Hst). simpl.
  eexists. split; [reflexivity|]. split; reflexivity.
Qed.

Lemma reload_restores_tasks_witness :
  let E := mkEngine (fun _ => InvalidDate) (fun _ => None) in
  let w := {| ui := initial; localStorage := Some (lit "[]");
              setItem_calls := [lit "[]"]; errors := [] |} in
  let l := [Type_ (lit " A "); Submit 5 6; MenuEntry active; FilterButton;
            MenuEntry completed_; Type_ (lit "b")] in
  exists w',
    boot E (localStorage (session w l)) = Some w'
    /\ ui w' = setTasks (tasks (ui (session w l))) initial
    /\ errors w' = [].
Proof.
  intros E w l. apply (reload_restores_tasks E None w l).
  - reflexivity.
  - constructor.
  - repeat constructor; simpl; unfold maxTime; lia.
Defined.

(** * More on the load effect *)

Lemma revive_Task_json_any (E : Engine) (task : Task) :
  Date_object (createdAt task) -> revive E (Task_json task) = ATask (reloaded task).
Proof.
  destruct task as [i t c [|tv]]; simpl; intros Hv; [reflexivity|].
  unfold revive, Task_json. cbn [get_createdAt createdAt Date_json].
  change (get (lit "createdAt") _) with (Some (JStr (toISOString tv))).
  cbn [new_Date]. unfold Date_parse.
  rewrite parse_iso_utc_toISOString by exact Hv.
  rewrite TimeClip_valid by exact Hv.
  reflexivity.
Qed.

Lemma revive_all_Task_json_any (E : Engine) (ts : list Task) :
  Forall (fun t => Date_object (createdAt t)) ts ->
  revive_all E (List.map Task_json ts) = Some (SetTasks (List.map reloaded ts)).
Proof.
  induction 1 as [|task ts Hv _ IH]; [reflexivity|].
  cbn [List.map revive_all].
  rewrite revive_Task_json_any by exact Hv. rewrite IH. reflexivity.
Qed.

(** X4: what comes back from the stored text of any task list: the same
    tasks in the same order, except that an invalid creation date has
    become 1970-01-01T00:00:00.000Z; what comes back is then stable
    under further saves and loads. *)
Theorem load_after_save (E : Engine) (st : State) :
  Forall (fun t => code_units (id t) /\ code_units (text t)
                   /\ Date_object (createdAt t)) (tasks st) ->
  load E (Some (save st))
  = {| result := SetTasks (List.map reloaded (tasks st)); console := [] |}
  /\ load E (Some (save (setTasks (List.map reloaded (tasks st)) st)))
     = {| result := SetTasks (List.map reloaded (tasks st)); console := [] |}.
Proof.
  intros Hs.
  assert (Hgen : forall ts,
             Forall (fun t => code_units (id t) /\ code_units (text t)
                              /\ Date_object (createdAt t)) ts ->
             load E (Some (JSON.stringify ts))
             = {| result := SetTasks (List.map reloaded ts); console := [] |}).
  { intros ts H.
    rewrite load_nonempty by (unfold JSON.stringify; discriminate).
    rewrite parse_stringify.
    - rewrite revive_all_Task_json_any; [reflexivity|].
      eapply Forall_impl; [|exact H]. intros t [_ [_ Hd]]; exact Hd.
    - eapply Forall_impl; [|exact H]. intros t [H1 [H2 _]]; split; assumption. }
  split; [apply Hgen; exact Hs|].
  unfold save. simpl tasks. rewrite Hgen.
  - rewrite map_map. f_equal. f_equal. apply map_ext.
    intros [i t c [|tv]]; reflexivity.
  - apply Forall_forall. intros t Ht. apply in_map_iff in Ht.
    destruct Ht as [u [<- Hu]]. rewrite Forall_forall in Hs.
    destruct (Hs u Hu) as [H1 [H2 H3]].
    destruct u as [i t c [|tv]]; simpl in *.
    + split; [exact H1|]. split; [exact H2|]. unfold valid_time, maxTime; lia.
    + split; [exact H1|]. split; [exact H2 | exact H3].
Qed.

Lemma load_after_save_witness :
  let E := mkEngine (fun _ => InvalidDate) (fun _ => None) in
  let a := {| id := lit "1"; text := lit "A"; completed := true;
              createdAt := InvalidDate |} in
  load E (Some (save (setTasks [a] initial)))
  = {| result := SetTasks [reloaded a]; console := [] |}.
Proof.
  intros E a.
  apply (proj1 (load_after_save E (setTasks [a] initial)
                  ltac:(repeat constructor; simpl; lia))).
Defined.

Lemma revive_ATask (E : Engine) (e : json) (task : Task) :
  revive E e = ATask task -> stored_as E e task.
Proof.
  unfold revive, stored_as.
  destruct (get_createdAt e) as [c|] eqn:Hc; [|discriminate].
  destruct (new_Date E c) as [d|] eqn:Hd; [|discriminate].
  destruct e as [| | | | |ms]; try discriminate.
  simpl in Hc. injection Hc as <-.
  destruct (get (lit "id") ms) as [[| | |i| |]|] eqn:Hi; try discriminate.
  destruct (get (lit "text") ms) as [[| | |t| |]|] eqn:Ht; try discriminate.
  destruct (get (lit "completed") ms) as [[|b| | | |]|] eqn:Hb;
    try discriminate.
  intros [= <-]. exists ms. simpl. repeat split; assumption.
Qed.

Lemma revive_all_SetTasks (E : Engine) (l : list json) :
  forall ts, revive_all E l = Some (SetTasks ts) ->
             Forall2 (stored_as E) l ts.
Proof.
  induction l as [|e l IH]; intros ts; simpl.
  - intros [= <-]. constructor.
  - destruct (revive E e) as [| |task] eqn:He; try discriminate.
    + destruct (revive_all E l) as [r|]; discriminate.
    + destruct (revive_all E l) as [[|ts'|]|]; try discriminate.
      intros [= <-]. constructor; [apply revive_ATask; exact He|].
      apply IH; reflexivity.
Qed.

(** X5: the load effect never drops, adds or reorders tasks: when it sets a
    task list, the stored text is a JSON array with one object per
    task, in order, whose [id], [text] and [completed] members are those
    of the task and whose [createdAt] member gives its date; nothing is
    logged. *)
Theorem load_task_by_task (E : Engine) (stored : option js_string)
        (ts : list Task) :
  result (load E stored) = SetTasks ts ->
  exists s l,
    stored = Some s /\ JSON.parse s = Some (JArr l)
    /\ Forall2 (stored_as E) l ts
    /\ length l = length ts
    /\ console (load E stored) = [].
Proof.
  destruct stored as [[|c s]|]; simpl; try discriminate.
  destruct (JSON.parse (c :: s)) as [[| | | |l|]|] eqn:Hp; simpl;
    try discriminate.
  destruct (revive_all E l) as [r|] eqn:Hr; simpl; [|discriminate].
  intros ->. exists (c :: s), l.
  pose proof (revive_all_SetTasks E l ts Hr) as H2.
  repeat split; auto. eapply Forall2_length; exact H2.
Qed.

(** Two stored objects, the first with its members in another order and
    one member more, the second without a date. *)
Lemma load_task_by_task_witness :
  let E := mkEngine (fun _ => InvalidDate) (fun _ => None) in
  let stored :=
    Some (json_text
      "[{'text':'B','id':'7','done':1,'completed':true,'createdAt':'2023-11-14T22:13:20.000Z'}, {'id':'8','text':'C','completed':false}]") in
  let ts := [ {| id := lit "7"; text := lit "B"; completed := true;
                 createdAt := TimeValue 1700000000000 |};
              {| id := lit "8"; text := lit "C"; completed := false;
                 createdAt := InvalidDate |} ] in
  result (load E stored) = SetTasks ts
  /\ exists s l,
       stored = Some s /\ JSON.parse s = Some (JArr l)
       /\ Forall2 (stored_as E) l ts /\ length l = length ts
       /\ console (load E stored) = [].
Proof.
  intros E stored ts.
  assert (H : result (load E stored) = SetTasks ts)
    by (vm_compute; reflexivity).
  split; [exact H|].
  exact (load_task_by_task E stored ts H).
Defined.

(** * Ids under a clock that never repeats *)

Lemma run_ids_unique_witness :
  NoDup (ids (tasks (run initial [Type_ (lit "a"); Submit 1000 1000;
                                  Type_ (lit "b"); Submit 1001 1001]))).
Proof.
  apply (run_ids_unique [Type_ (lit "a"); Submit 1000 1000;
                         Type_ (lit "b"); Submit 1001 1001]).
  simpl. repeat constructor; simpl; intuition lia.
Defined.
